(** * vue-inheritance-loader: the component-inheritance resolver

    A shallow embedding of [src/index.js].  The loader resolves a single-file
    component that declares [<template extends="...">]: it reads the base
    component, resolves it recursively, splices the derived component's
    [<extension>] blocks into the base template's [<extension-point>]s and
    serialises the result; [getMergedCode] then turns the extension points
    that are still open into plain [<template>] containers.

    The libraries the loader calls ([@vue/component-compiler-utils],
    [htmlparser2], Node's [fs] and [path], [RegExp]) are not part of the
    repository; they enter the development as the fields of a record
    ([Libs]) over which every definition and theorem is parametric. *)

From Stdlib Require Import String Ascii List Bool Arith Lia.
Import ListNotations.
Local Open Scope list_scope.
Local Open Scope string_scope.

Arguments String.eqb : simpl never.

(** ** JavaScript values and exceptions *)

(** The values found in a descriptor's [attrs] and in the alias table: a
    string, or a boolean (the section splitter stores an attribute written
    without a value as [true]). *)
Inductive value : Type :=
| VStr (s : string)
| VBool (b : bool).

(** Truthiness of [obj[key]]: [None] is [undefined]. *)
Definition truthy (v : option value) : bool :=
  match v with
  | None => false
  | Some (VStr s) => negb (s =? "")
  | Some (VBool b) => b
  end.

(** [`${v}`]: interpolation of a value in a template literal. *)
Definition toString (v : value) : string :=
  match v with
  | VStr s => s
  | VBool true => "true"
  | VBool false => "false"
  end.

(** [`${x}`], or [x] added to a string, when [x] may be [undefined]. *)
Definition strOrUndefined (o : option string) : string :=
  match o with
  | Some s => s
  | None => "undefined"
  end.

Inductive exn : Type :=
| TypeError (msg : string)
| SyntaxError (msg : string)
| IOError (code path : string)
| ParseError (msg : string).

(** An object used as a map: its entries in the order of [Object.keys],
    one per key. *)
Definition obj (V : Type) : Type := list (string * V).

Section Objects.
Variable V : Type.

(** [o[k]]; [None] is [undefined]. *)
Fixpoint get (o : obj V) (k : string) : option V :=
  match o with
  | [] => None
  | (k', v) :: o' => if k' =? k then Some v else get o' k
  end.

(** [delete o[k]] *)
Fixpoint delete (o : obj V) (k : string) : obj V :=
  match o with
  | [] => []
  | (k', v) :: o' => if k' =? k then delete o' k else (k', v) :: delete o' k
  end.

(** [Object.keys(o)] *)
Definition keys (o : obj V) : list string := map fst o.
End Objects.

Arguments get {V} o k.
Arguments delete {V} o k.
Arguments keys {V} o.

Definition nl : string := String (ascii_of_nat 10) "".

Definition spaces (n : nat) : string := String.concat "" (repeat " " n).

(** ** Options (lines 10-19) *)

Record Options : Type := {
  EXT_POINT_TAG : string;
  EXTENSIONS_TAG : string;
  EXTENSION_TAG : string;
  EXT_POINT_NAME_ATTR : string;
  EXT_POINT_REF_ATTR : string;
  EXTENDABLE_ATTR : string;
  EXTENDS_ATTR : string
}.

Definition defaultOptions : Options := {|
  EXT_POINT_TAG := "extension-point";
  EXTENSIONS_TAG := "extensions";
  EXTENSION_TAG := "extension";
  EXT_POINT_NAME_ATTR := "name";
  EXT_POINT_REF_ATTR := "point";
  EXTENDABLE_ATTR := "extendable";
  EXTENDS_ATTR := "extends"
|}.

(** ** Single-file-component descriptors *)

(** A block of a descriptor ([template], [script], a style or a custom
    block). *)
Record block : Type := {
  type : string;
  attrs : obj value;
  content : string
}.

Record descriptor : Type := {
  template : option block;
  script : option block;
  styles : list block;
  customBlocks : list block
}.

(** ** DOM nodes of htmlparser2

    Text, comments and elements; the [type] of an element is [tag],
    [script] or [style].  Directives and CDATA sections, which a component
    template does not hold, are left out. *)

Inductive elemType : Type := Tag | Script | Style.

Unset Elimination Schemes.
Inductive node : Type :=
| Text (data : string)
| Comment (data : string)
| Element (ty : elemType) (name : string) (attribs : obj string)
          (children : list node).
Set Elimination Schemes.

Definition dom : Type := list node.

Section NodeInd.
Variable P : node -> Prop.
Variable Q : dom -> Prop.
Hypothesis HText : forall s, P (Text s).
Hypothesis HComment : forall s, P (Comment s).
Hypothesis HElement : forall ty nm at_ ch, Q ch -> P (Element ty nm at_ ch).
Hypothesis Hnil : Q [].
Hypothesis Hcons : forall n d, P n -> Q d -> Q (n :: d).

Fixpoint node_dom_ind (n : node) : P n :=
  match n with
  | Text s => HText s
  | Comment s => HComment s
  | Element ty nm at_ ch =>
      HElement ty nm at_ ch
        ((fix go (d : dom) : Q d :=
            match d with
            | [] => Hnil
            | m :: d' => Hcons m d' (node_dom_ind m) (go d')
            end) ch)
  end.

Fixpoint dom_ind (d : dom) : Q d :=
  match d with
  | [] => Hnil
  | m :: d' => Hcons m d' (node_dom_ind m) (dom_ind d')
  end.
End NodeInd.

(** [node.name]; text and comment nodes have none. *)
Definition nodeName (n : node) : option string :=
  match n with
  | Element _ nm _ _ => Some nm
  | _ => None
  end.

Definition nodeChildren (n : node) : dom :=
  match n with
  | Element _ _ _ ch => ch
  | _ => []
  end.

Definition nodeAttribs (n : node) : obj string :=
  match n with
  | Element _ _ at_ _ => at_
  | _ => []
  end.

Definition eqb_ostring (a b : option string) : bool :=
  match a, b with
  | Some x, Some y => x =? y
  | None, None => true
  | _, _ => false
  end.

Definition isTagType (ty : elemType) : bool :=
  match ty with Tag => true | _ => false end.

(** The test of line 187: [node.type === 'tag' && node.name === tag]. *)
Definition isTagNamed (tag : string) (ty : elemType) (nm : string) : bool :=
  isTagType ty && (nm =? tag).

(** [DomUtils.findAll] from one node: the elements below and including it
    that pass the test, a parent before its children. *)
Fixpoint findAllFrom (tag : string) (n : node) : list node :=
  match n with
  | Element ty nm _ ch =>
      ((if isTagNamed tag ty nm then [n] else [])
       ++ flat_map (findAllFrom tag) ch)%list
  | _ => []
  end.

(** [findDomElementsByTagName] (lines 186-188) *)
Definition findDomElementsByTagName (d : dom) (tag : string) : list node :=
  flat_map (findAllFrom tag) d.

(** ** The external libraries *)

Record Libs : Type := {
  (** [toDescriptor]: [parse] of @vue/component-compiler-utils.  The
      argument is [None] when the caller passes [undefined]. *)
  toDescriptor : option string -> exn + descriptor;
  (** [parseDOM]: htmlparser2's [parseDOM] with the options of line 171. *)
  parseDOM : string -> dom;
  (** [htmlparser.DomUtils.getOuterHTML] *)
  getOuterHTML : dom -> string;
  (** [fs.readFile(path, 'utf8', cb)]: the error or the contents handed to
      the callback. *)
  readFile : string -> exn + string;
  (** [path.join] of two strings and [path.dirname] *)
  path_join : string -> string -> string;
  path_dirname : string -> string;
  (** [new RegExp(k).test(s)]; the constructor throws on a malformed
      pattern. *)
  regexp_test : string -> string -> exn + bool;
  (** [s.replace(new RegExp(k), r)] *)
  regexp_replace : string -> string -> string -> string
}.


(** ** Strings *)

Definition dquote : string := String (ascii_of_nat 34) "".

Definition isSep (c : ascii) : bool :=
  (c =? "/")%char || (c =? ascii_of_nat 92)%char.

(** [s.split(/[\/\\]/)] *)
Fixpoint splitPath (s : string) : list string :=
  match s with
  | EmptyString => [""]
  | String c r =>
      if isSep c then "" :: splitPath r
      else match splitPath r with
           | h :: t => String c h :: t
           | [] => [String c ""]
           end
  end.

(** [s.replace(/^(\/\/\n)+/, '')] *)
Fixpoint stripCommentLines (s : string) : string :=
  match s with
  | String "/" (String "/" (String "010" r)) => stripCommentLines r
  | _ => s
  end.

(** ** The loader *)

Section Loader.
Variable L : Libs.
Variable options : Options.

(** *** Path of the base component (lines 79-103) *)

(** [Object.keys(aliases).find(k => new RegExp(k).test(baseRelPath))] *)
Fixpoint findPatternAlias (ks : list string) (baseRelPath : string)
  : exn + option string :=
  match ks with
  | [] => inr None
  | k :: ks' =>
      match regexp_test L k baseRelPath with
      | inl e => inl e
      | inr true => inr (Some k)
      | inr false => findPatternAlias ks' baseRelPath
      end
  end.

(** [Object.keys(aliases).find(k => baseRelPathParts[0] === k)] *)
Definition findSegmentAlias (ks : list string) (baseRelPathParts : list string)
  : option string :=
  find (fun k => eqb_ostring (hd_error baseRelPathParts) (Some k)) ks.

(** The value of [baseAbsPath] at line 105, or the exception thrown on the
    way.  [baseRelPath] is the (truthy) value of the [extends] attribute. *)
Definition baseAbsPath (baseRelPath : value) (currPath : string)
  (aliases : obj value) : exn + string :=
  match baseRelPath with
  | VBool _ => inl (TypeError "baseRelPath.split is not a function")
  | VStr rel =>
      let baseRelPathParts := splitPath rel in
      let fromJest := truthy (get aliases "__fromJest") in
      let found :=
        if fromJest then findPatternAlias (keys aliases) rel
        else inr (findSegmentAlias (keys aliases) baseRelPathParts) in
      match found with
      | inl e => inl e
      | inr matchingAlias =>
          match matchingAlias with
          | Some k =>
              if k =? "" then inr (path_join L currPath rel)
              else if fromJest then
                inr (regexp_replace L rel k
                       (strOrUndefined (option_map toString (get aliases k))))
              else
                match get aliases k with
                | Some (VStr target) =>
                    inr (path_join L target
                           (String.concat "/" (tl baseRelPathParts)))
                | _ =>
                    inl (TypeError "The path argument must be of type string")
                end
          | None => inr (path_join L currPath rel)
          end
      end
  end.

(** *** Serialisation (lines 195-212) *)

Definition attrToHtmlAttr (kv : string * value) : string :=
  " " ++ fst kv ++ "=" ++ dquote ++ toString (snd kv) ++ dquote ++ " ".

(** [blockToHTML] returns [undefined] for an absent block. *)
Definition blockToHTML (b : option block) : option string :=
  match b with
  | Some blk =>
      let attrs := fold_left (fun accum curr => accum ++ attrToHtmlAttr curr)
                             (attrs blk) "" in
      Some ("<" ++ type blk ++ " " ++ attrs ++ ">" ++ content blk
              ++ "</" ++ type blk ++ ">")
  | None => None
  end.

Definition descriptorToHTML (d : descriptor) : string :=
  String.concat nl
    (map (fun cb => strOrUndefined (blockToHTML (Some cb)))
         (filter (fun cb => negb (type cb =? EXTENSION_TAG options))
                 (customBlocks d)))
  ++ strOrUndefined (blockToHTML (script d))
  ++ String.concat nl
       (map (fun cb => strOrUndefined (blockToHTML (Some cb))) (styles d)).

(** The template literal of lines 142-145. *)
Definition extendableSource (html rest : string) : string :=
  "<template " ++ EXTENDABLE_ATTR options ++ ">" ++ nl
  ++ spaces 27 ++ html ++ nl
  ++ spaces 25 ++ "</template> " ++ nl
  ++ spaces 25 ++ rest.

(** The template literal of lines 58-61. *)
Definition finalSource (html rest : string) : string :=
  "<template>" ++ nl
  ++ spaces 20 ++ html ++ nl
  ++ spaces 18 ++ "</template> " ++ nl
  ++ spaces 18 ++ rest.

(** *** Extension points and extension blocks *)

(** The test of [findDomElementsByTagName(dom, options.EXT_POINT_TAG)]. *)
Definition isExtPoint (ty : elemType) (nm : string) : bool :=
  isTagNamed (EXT_POINT_TAG options) ty nm.

(** Lines 122-123.  The two callbacks assign to [node.type] instead of
    comparing it, so a node is selected by its name alone; the nodes whose
    [type] is overwritten are dropped with [currentDom]. *)
Definition getExtensions (currentDom : dom) : exn + dom :=
  match find (fun n => eqb_ostring (nodeName n) (Some (EXTENSIONS_TAG options)))
             currentDom with
  | Some container =>
      inr (filter (fun n => eqb_ostring (nodeName n)
                                        (Some (EXTENSION_TAG options)))
                  (nodeChildren container))
  | None => inl (TypeError "Cannot read property 'children' of undefined")
  end.

(** Line 128: the first extension block whose [point] attribute is [===] to
    the [name] attribute of the extension point. *)
Definition findExtendBlock (extensions : dom) (pointAttribs : obj string)
  : option node :=
  find (fun b => eqb_ostring (get (nodeAttribs b) (EXT_POINT_REF_ATTR options))
                             (get pointAttribs (EXT_POINT_NAME_ATTR options)))
       extensions.

(** Lines 126-138.  [findDomElementsByTagName] lists the extension points of
    [baseDom], at any depth, before the loop changes any of them.  A point
    with a matching block takes the block's children, so the points that
    were below it leave the tree (the loop still visits them, without
    effect on [baseDom]); a point without one is kept, and the points below
    it are visited in their turn.  [mergeNode] gives the tree that
    [getOuterHTML] then sees; the loop itself, on objects that are changed
    in place, is [fillPoints] below, and [fillPoints_merge] relates the
    two. *)
Fixpoint mergeNode (extensions : dom) (n : node) : node :=
  match n with
  | Element ty nm at_ ch =>
      if isExtPoint ty nm then
        match findExtendBlock extensions at_ with
        | Some extendBlock =>
            Element ty "template" (delete at_ (EXT_POINT_NAME_ATTR options))
                    (nodeChildren extendBlock)
        | None => Element ty nm at_ (map (mergeNode extensions) ch)
        end
      else Element ty nm at_ (map (mergeNode extensions) ch)
  | _ => n
  end.

Definition mergeDom (extensions : dom) (baseDom : dom) : dom :=
  map (mergeNode extensions) baseDom.

(** Lines 54-57: every extension point of the final tree, at any depth,
    becomes a [<template>] without its name attribute.  The loop itself is
    [retagPoints] below, related to [finalizeNode] by
    [retagPoints_finalize]. *)
Fixpoint finalizeNode (n : node) : node :=
  match n with
  | Element ty nm at_ ch =>
      if isExtPoint ty nm then
        Element ty "template" (delete at_ (EXT_POINT_NAME_ATTR options))
                (map finalizeNode ch)
      else Element ty nm at_ (map finalizeNode ch)
  | _ => n
  end.

Definition finalizeDom (finalDom : dom) : dom := map finalizeNode finalDom.

(** *** Promises *)

(** The value a promise of [resolveComponent] or [getMergedCode] is
    resolved with. *)
Record resolved : Type := {
  source : option string;
  ancestorsPaths : list string
}.

(** A call of [resolve] or [reject]. *)
Inductive settle : Type :=
| Resolve (r : resolved)
| Reject (e : exn).

(** What one call of [resolveComponent] or [getMergedCode] does: the calls
    of the promise's [resolve] and [reject], in order, and the paths given
    to [fs.readFile], in order. *)
Record run : Type := {
  settled : list settle;
  reads : list string
}.

(** A promise keeps the first settlement and ignores the later ones; a
    promise without any stays pending. *)
Definition outcome (r : run) : option settle := hd_error (settled r).

(** *** [resolveComponent] (lines 71-162) *)

(** Lines 112-150: the body of the [then] callback, with [r] the value the
    promise of the base component was resolved with.  An exception is caught
    at line 148. *)
Definition mergeWithBase (currentTemplate : block) (currentDesc : descriptor)
  (baseAbs : string) (r : resolved) : exn + resolved :=
  let ancestors := (ancestorsPaths r ++ [baseAbs])%list in
  match toDescriptor L (source r) with
  | inl e => inl e
  | inr baseDescriptor =>
      match template baseDescriptor with
      | None => inl (TypeError "Cannot read property 'content' of null")
      | Some baseTemplate =>
          let baseDom := parseDOM L (content baseTemplate) in
          let currentDom := parseDOM L (content currentTemplate) in
          match getExtensions currentDom with
          | inl e => inl e
          | inr extensions =>
              inr {| source :=
                       Some (extendableSource
                               (getOuterHTML L (mergeDom extensions baseDom))
                               (descriptorToHTML currentDesc));
                     ancestorsPaths := ancestors |}
          end
      end
  end.

(** The [then] of line 111 on the promise of the base component. *)
Definition thenMerge (currentTemplate : block) (currentDesc : descriptor)
  (baseAbs : string) (base : run) : list settle :=
  match outcome base with
  | Some (Resolve r) =>
      match mergeWithBase currentTemplate currentDesc baseAbs r with
      | inr res => [Resolve res]
      | inl e => [Reject e]
      end
  | Some (Reject e) => [Reject e]
  | None => []
  end.

(** [fuel] bounds the depth of the chain of base components that is
    followed; a promise whose chain is longer than that is still pending.
    At line 107 [reject(err)] is not followed by a [return]: the callback
    goes on with [contents] undefined. *)
Fixpoint resolveComponent (fuel : nat) (currentSource : option string)
  (currPath : string) (aliases : obj value) : run :=
  match fuel with
  | O => {| settled := []; reads := [] |}
  | S fuel' =>
      match toDescriptor L currentSource with
      | inl e => {| settled := [Reject e]; reads := [] |}
      | inr currentDesc =>
          match template currentDesc with
          | Some currentTemplate =>
              match get (attrs currentTemplate) (EXTENDS_ATTR options) with
              | Some baseRelPath =>
                  if truthy (Some baseRelPath) then
                    match baseAbsPath baseRelPath currPath aliases with
                    | inl e => {| settled := [Reject e]; reads := [] |}
                    | inr baseAbs =>
                        let '(rejected, contents) :=
                          match readFile L baseAbs with
                          | inl err => ([Reject err], None)
                          | inr text => ([], Some text)
                          end in
                        let basePath := path_dirname L baseAbs in
                        let base :=
                          resolveComponent fuel' contents basePath aliases in
                        {| settled :=
                             (rejected
                              ++ thenMerge currentTemplate currentDesc baseAbs
                                   base)%list;
                           reads := baseAbs :: reads base |}
                    end
                  else
                    {| settled := [Resolve {| source := currentSource;
                                              ancestorsPaths := [] |}];
                       reads := [] |}
              | None =>
                  {| settled := [Resolve {| source := currentSource;
                                            ancestorsPaths := [] |}];
                     reads := [] |}
              end
          | None =>
              {| settled := [Resolve {| source := currentSource;
                                        ancestorsPaths := [] |}];
                 reads := [] |}
          end
      end
  end.

(** *** [getMergedCode] (lines 41-69) *)

(** Lines 46-49: the descriptor of the merged source, its script relieved
    of the comment lines the section splitter pads it with. *)
Definition stripScript (d : descriptor) : descriptor :=
  {| template := template d;
     script :=
       match script d with
       | Some s => Some {| type := type s; attrs := attrs s;
                           content := stripCommentLines (content s) |}
       | None => None
       end;
     styles := styles d;
     customBlocks := customBlocks d |}.

(** Lines 43-64: the [then] callback.  It has no [try]: an exception in it
    leaves the promise of [getMergedCode] pending. *)
Definition finalize (r : resolved) : list settle :=
  match toDescriptor L (source r) with
  | inl _ => []
  | inr parsed =>
      let finalDescriptor := stripScript parsed in
      match template finalDescriptor with
      | Some finalTemplate =>
          if truthy (get (attrs finalTemplate) (EXTENDABLE_ATTR options)) then
            let finalDom := parseDOM L (content finalTemplate) in
            [Resolve {| source :=
                          Some (finalSource
                                  (getOuterHTML L (finalizeDom finalDom))
                                  (descriptorToHTML finalDescriptor));
                        ancestorsPaths := ancestorsPaths r |}]
          else [Resolve r]
      | None => [Resolve r]
      end
  end.

Definition getMergedCode (fuel : nat) (source : option string)
  (currPath : string) (aliases : obj value) : run :=
  let inner := resolveComponent fuel source currPath aliases in
  {| settled :=
       match outcome inner with
       | Some (Resolve r) => finalize r
       | Some (Reject e) => [Reject e]
       | None => []
       end;
     reads := reads inner |}.

End Loader.

(** ** Positions in a tree and the extension points of a tree *)

(** A forest with one hole, at any depth. *)
Inductive ctx : Type :=
| Hole (before after : dom)
| Under (before : dom) (ty : elemType) (name : string) (attribs : obj string)
        (inner : ctx) (after : dom).

(** The forest with [n] in the hole. *)
Fixpoint plug (c : ctx) (n : node) : dom :=
  match c with
  | Hole before after => (before ++ n :: after)%list
  | Under before ty nm at_ inner after =>
      (before ++ Element ty nm at_ (plug inner n) :: after)%list
  end.

Section Points.
Variable options : Options.

(** The number of extension points of a node and of a tree. *)
Definition countNode (n : node) : nat :=
  length (findAllFrom (EXT_POINT_TAG options) n).

Definition countDom (d : dom) : nat :=
  length (findDomElementsByTagName d (EXT_POINT_TAG options)).

(** The extension points around the hole. *)
Fixpoint countCtx (c : ctx) : nat :=
  match c with
  | Hole before after => countDom before + countDom after
  | Under before ty nm _ inner after =>
      countDom before + (if isExtPoint options ty nm then 1 else 0)
      + countCtx inner + countDom after
  end.

(** An extension point with the given attributes and children. *)
Definition extPoint (at_ : obj string) (ch : dom) : node :=
  Element Tag (EXT_POINT_TAG options) at_ ch.

(** What an extension point becomes once filled or finalized. *)
Definition plainTemplate (at_ : obj string) (ch : dom) : node :=
  Element Tag "template" (delete at_ (EXT_POINT_NAME_ATTR options)) ch.

(** The position [c] after the merge: the trees around the hole are merged,
    the elements above it are kept. *)
Fixpoint mergeCtx (extensions : dom) (c : ctx) : ctx :=
  match c with
  | Hole before after =>
      Hole (mergeDom options extensions before)
           (mergeDom options extensions after)
  | Under before ty nm at_ inner after =>
      Under (mergeDom options extensions before) ty nm at_
            (mergeCtx extensions inner)
            (mergeDom options extensions after)
  end.

(** No element above the hole is an extension point that the extensions
    fill: the merge keeps what is in the hole in the tree. *)
Fixpoint holeKept (extensions : dom) (c : ctx) : bool :=
  match c with
  | Hole _ _ => true
  | Under _ ty nm at_ inner _ =>
      negb (isExtPoint options ty nm
            && match findExtendBlock options extensions at_ with
               | Some _ => true
               | None => false
               end)
      && holeKept extensions inner
  end.



End Points.


(** The component has an [extends] attribute that line 78 takes as one. *)
Definition extendsBase (L : Libs) (options : Options) (src : option string)
  (t : block) (d : descriptor) (v : value) : Prop :=
  toDescriptor L src = inr d /\ template d = Some t
  /\ get (attrs t) (EXTENDS_ATTR options) = Some v
  /\ truthy (Some v) = true.

(** The component has no [extends] attribute that line 78 takes as one. *)
Definition isBaseCase (options : Options) (d : descriptor) : Prop :=
  match template d with
  | Some t => truthy (get (attrs t) (EXTENDS_ATTR options)) = false
  | None => True
  end.

(** Following the chain of base components from a component, a file cannot
    be read: [ps] lists the paths read on the way, the unreadable one
    last. *)
Inductive readFails (L : Libs) (options : Options) (aliases : obj value)
  (err : exn) : option string -> string -> list string -> Prop :=
| fails_here : forall src currPath t d v p,
    extendsBase L options src t d v ->
    baseAbsPath L v currPath aliases = inr p ->
    readFile L p = inl err ->
    readFails L options aliases err src currPath [p]
| fails_above : forall src currPath t d v p text ps,
    extendsBase L options src t d v ->
    baseAbsPath L v currPath aliases = inr p ->
    readFile L p = inr text ->
    readFails L options aliases err (Some text) (path_dirname L p) ps ->
    readFails L options aliases err src currPath (p :: ps).

(** ** The trees in the store

    htmlparser2 builds a tree of objects, and the two loops over
    [findDomElementsByTagName] change those objects in place, through the
    references the search returned.  This section has the objects in a
    store, and the loops as they are written; [fillPoints_merge] and
    [retagPoints_finalize] show that what is then reachable from the roots
    is [mergeDom], respectively [finalizeDom], of what was. *)

(** A node object: its [children] are references. *)
Inductive cell : Type :=
| TextCell (data : string)
| CommentCell (data : string)
| ElementCell (ty : elemType) (name : string) (attribs : obj string)
              (children : list nat).

Definition store : Type := nat -> option cell.

(** An assignment to the fields of the object at [r]. *)
Definition write (h : store) (r : nat) (c : cell) : store :=
  fun r' => if Nat.eqb r' r then Some c else h r'.

(** A tree with the reference of each of its objects. *)
Unset Elimination Schemes.
Inductive lnode : Type :=
| LText (r : nat) (data : string)
| LComment (r : nat) (data : string)
| LElement (r : nat) (ty : elemType) (name : string) (attribs : obj string)
           (children : list lnode).
Set Elimination Schemes.

Section LnodeInd.
Variable P : lnode -> Prop.
Variable Q : list lnode -> Prop.
Hypothesis HText : forall r s, P (LText r s).
Hypothesis HComment : forall r s, P (LComment r s).
Hypothesis HElement :
  forall r ty nm at_ ch, Q ch -> P (LElement r ty nm at_ ch).
Hypothesis Hnil : Q [].
Hypothesis Hcons : forall n f, P n -> Q f -> Q (n :: f).

Fixpoint lnode_forest_ind (n : lnode) : P n :=
  match n with
  | LText r s => HText r s
  | LComment r s => HComment r s
  | LElement r ty nm at_ ch =>
      HElement r ty nm at_ ch
        ((fix go (f : list lnode) : Q f :=
            match f with
            | [] => Hnil
            | m :: f' => Hcons m f' (lnode_forest_ind m) (go f')
            end) ch)
  end.

Fixpoint forest_ind (f : list lnode) : Q f :=
  match f with
  | [] => Hnil
  | m :: f' => Hcons m f' (lnode_forest_ind m) (forest_ind f')
  end.
End LnodeInd.

Definition root (n : lnode) : nat :=
  match n with
  | LText r _ | LComment r _ | LElement r _ _ _ _ => r
  end.

Definition lchildren (n : lnode) : list lnode :=
  match n with
  | LElement _ _ _ _ ch => ch
  | _ => []
  end.

Definition lattribs (n : lnode) : obj string :=
  match n with
  | LElement _ _ _ at_ _ => at_
  | _ => []
  end.

(** The tree without the references. *)
Fixpoint erase (n : lnode) : node :=
  match n with
  | LText _ s => Text s
  | LComment _ s => Comment s
  | LElement _ ty nm at_ ch => Element ty nm at_ (map erase ch)
  end.

(** The object of the root of a tree. *)
Definition cellOf (n : lnode) : cell :=
  match n with
  | LText _ s => TextCell s
  | LComment _ s => CommentCell s
  | LElement _ ty nm at_ ch => ElementCell ty nm at_ (map root ch)
  end.

(** The objects of a tree, each with its reference. *)
Fixpoint cells (n : lnode) : list (nat * cell) :=
  (root n, cellOf n)
  :: match n with
     | LElement _ _ _ _ ch => flat_map cells ch
     | _ => []
     end.

Definition refs (f : list lnode) : list nat := map fst (flat_map cells f).

(** The store has the trees of [f] at their references. *)
Definition holds (h : store) (f : list lnode) : Prop :=
  Forall (fun rc => h (fst rc) = Some (snd rc)) (flat_map cells f).

Section StoreLoops.
Variable options : Options.

(** [findDomElementsByTagName(f, options.EXT_POINT_TAG)], as the
    references it returns. *)
Fixpoint pointRefsFrom (n : lnode) : list nat :=
  match n with
  | LElement r ty nm _ ch =>
      ((if isExtPoint options ty nm then [r] else [])
       ++ flat_map pointRefsFrom ch)%list
  | _ => []
  end.

Definition pointRefs (f : list lnode) : list nat := flat_map pointRefsFrom f.

(** The objects behind those references. *)
Fixpoint pointsFrom (n : lnode) : list lnode :=
  match n with
  | LElement _ ty nm _ ch =>
      ((if isExtPoint options ty nm then [n] else [])
       ++ flat_map pointsFrom ch)%list
  | _ => []
  end.

(** [node.attribs[options.EXT_POINT_REF_ATTR] === name] of line 128, for
    the object at [b]. *)
Definition refersTo (h : store) (name : option string) (b : nat) : bool :=
  match h b with
  | Some (ElementCell _ _ battribs _) =>
      eqb_ostring (get battribs (EXT_POINT_REF_ATTR options)) name
  | _ => false
  end.

(** The body of the loop of lines 126-138, on the object at [extPoint];
    [extensions] are the references of the extension blocks. *)
Definition fillPoint (extensions : list nat) (h : store) (extPoint : nat)
  : store :=
  match h extPoint with
  | Some (ElementCell ty nm at_ ch) =>
      match find (refersTo h (get at_ (EXT_POINT_NAME_ATTR options)))
                 extensions with
      | Some extendBlock =>
          match h extendBlock with
          | Some (ElementCell _ _ _ bchildren) =>
              write h extPoint
                (ElementCell ty "template"
                   (delete at_ (EXT_POINT_NAME_ATTR options)) bchildren)
          | _ => h
          end
      | None => h
      end
  | _ => h
  end.

(** The loop of lines 126-138. *)
Definition fillPoints (extensions : list nat) (h : store)
  (points : list nat) : store :=
  fold_left (fillPoint extensions) points h.

Definition isLElement (n : lnode) : bool :=
  match n with
  | LElement _ _ _ _ _ => true
  | _ => false
  end.

(** The body of the loop of lines 54-57. *)
Definition retagPoint (h : store) (ext : nat) : store :=
  match h ext with
  | Some (ElementCell ty nm at_ ch) =>
      write h ext
        (ElementCell ty "template"
           (delete at_ (EXT_POINT_NAME_ATTR options)) ch)
  | _ => h
  end.

(** The loop of lines 54-57. *)
Definition retagPoints (h : store) (points : list nat) : store :=
  fold_left retagPoint points h.

(** [mergeNode] on a tree with references: a filled point keeps its
    reference and takes the block's children, references included. *)
Fixpoint mergeL (blocks : list lnode) (n : lnode) : lnode :=
  match n with
  | LElement r ty nm at_ ch =>
      if isExtPoint options ty nm then
        match find (fun b => eqb_ostring
                               (get (lattribs b) (EXT_POINT_REF_ATTR options))
                               (get at_ (EXT_POINT_NAME_ATTR options)))
                   blocks with
        | Some extendBlock =>
            LElement r ty "template"
                     (delete at_ (EXT_POINT_NAME_ATTR options))
                     (lchildren extendBlock)
        | None => LElement r ty nm at_ (map (mergeL blocks) ch)
        end
      else LElement r ty nm at_ (map (mergeL blocks) ch)
  | _ => n
  end.

(** [finalizeNode] on a tree with references. *)
Fixpoint finalizeL (n : lnode) : lnode :=
  match n with
  | LElement r ty nm at_ ch =>
      if isExtPoint options ty nm then
        LElement r ty "template" (delete at_ (EXT_POINT_NAME_ATTR options))
                 (map finalizeL ch)
      else LElement r ty nm at_ (map finalizeL ch)
  | _ => n
  end.

End StoreLoops.

(** ** The loader function (lines 21-39) *)

(** [{...defaultOptions, ...getOptions(this)}]: a key the user gives
    replaces the default.  The schema the options are validated against
    ([options.json]) is not among the files of the repository: the values
    are taken to be strings, and [validateOptions] is a parameter of
    [loader]. *)
Definition optionOr (user : obj string) (key dflt : string) : string :=
  match get user key with
  | Some v => v
  | None => dflt
  end.

Definition mergeOptions (user : obj string) : Options :=
  {| EXT_POINT_TAG :=
       optionOr user "EXT_POINT_TAG" (EXT_POINT_TAG defaultOptions);
     EXTENSIONS_TAG :=
       optionOr user "EXTENSIONS_TAG" (EXTENSIONS_TAG defaultOptions);
     EXTENSION_TAG :=
       optionOr user "EXTENSION_TAG" (EXTENSION_TAG defaultOptions);
     EXT_POINT_NAME_ATTR :=
       optionOr user "EXT_POINT_NAME_ATTR" (EXT_POINT_NAME_ATTR defaultOptions);
     EXT_POINT_REF_ATTR :=
       optionOr user "EXT_POINT_REF_ATTR" (EXT_POINT_REF_ATTR defaultOptions);
     EXTENDABLE_ATTR :=
       optionOr user "EXTENDABLE_ATTR" (EXTENDABLE_ATTR defaultOptions);
     EXTENDS_ATTR :=
       optionOr user "EXTENDS_ATTR" (EXTENDS_ATTR defaultOptions) |}.

(** What the loader asks of webpack: [this.addDependency(path)],
    [callback(null, source, map)] and [callback(error)]. *)
Inductive hostCall (M : Type) : Type :=
| AddDependency (path : string)
| CallbackOk (source : option string) (map : M)
| CallbackError (error : exn).

Arguments AddDependency {M} path.
Arguments CallbackOk {M} source map.
Arguments CallbackError {M} error.

(** [loader(source, map)], with [this.context] and the alias table of the
    compiler: the exception [validateOptions] throws, or the calls made to
    webpack, in order, within [fuel] levels of base components. *)
Definition loader (M : Type) (L : Libs)
  (validateOptions : Options -> option exn)
  (userOptions : obj string) (fuel : nat) (source : string) (map : M)
  (context : string) (aliases : obj value) : exn + list (hostCall M) :=
  let options := mergeOptions userOptions in
  match validateOptions options with
  | Some e => inl e
  | None =>
      inr match outcome (getMergedCode L options fuel (Some source) context
                           aliases) with
          | Some (Resolve result) =>
              let '{| source := merged; ancestorsPaths := ancestors |} :=
                result in
              (List.map AddDependency ancestors
               ++ [CallbackOk merged map])%list
          | Some (Reject error) => [CallbackError error]
          | None => []
          end
  end.

(** ** Strings the properties speak of *)

(** [n] of the comment lines the section splitter pads a script with. *)
Definition padLines (n : nat) : string :=
  String.concat "" (repeat ("//" ++ nl) n).

(** The string with every backslash turned into a slash. *)
Fixpoint slashes (s : string) : string :=
  match s with
  | EmptyString => EmptyString
  | String c r => String (if isSep c then "/"%char else c) (slashes r)
  end.

(** ** A small world to run the loader in

    Concrete libraries for the examples: descriptors, trees and files are
    looked up in tables, the serialiser writes a tree out, and the path and
    pattern functions cover the operands the examples use (normalised
    POSIX paths, patterns without metacharacters). *)

Module Demo.

Definition join (a b : string) : string := a ++ "/" ++ b.

Definition dirname (p : string) : string :=
  String.concat "/" (removelast (splitPath p)).

Definition literalTest (k s : string) : bool :=
  match index 0 k s with
  | Some _ => true
  | None => false
  end.

Definition literalReplace (s k r : string) : string :=
  match index 0 k s with
  | Some i =>
      substring 0 i s ++ r
      ++ substring (i + String.length k) (String.length s) s
  | None => s
  end.

Definition attribToString (kv : string * string) : string :=
  " " ++ fst kv ++ "=" ++ dquote ++ snd kv ++ dquote.

Fixpoint outerNode (n : node) : string :=
  match n with
  | Text s => s
  | Comment s => "<!--" ++ s ++ "-->"
  | Element _ nm at_ ch =>
      "<" ++ nm ++ String.concat "" (map attribToString at_) ++ ">"
      ++ String.concat "" (map outerNode ch) ++ "</" ++ nm ++ ">"
  end.

Definition outerHTML (d : dom) : string := String.concat "" (map outerNode d).

Definition emptyDescriptor : descriptor :=
  {| template := None; script := None; styles := []; customBlocks := [] |}.

Definition tableLibs (descs : obj descriptor) (doms : obj dom)
  (files : obj string) : Libs :=
  {| toDescriptor := fun s =>
       match s with
       | Some text =>
           match get descs text with
           | Some d => inr d
           | None => inr emptyDescriptor
           end
       | None => inr emptyDescriptor
       end;
     parseDOM := fun c =>
       match get doms c with
       | Some d => d
       | None => if c =? "" then [] else [Text c]
       end;
     getOuterHTML := outerHTML;
     readFile := fun p =>
       match get files p with
       | Some text => inr text
       | None => inl (IOError "ENOENT" p)
       end;
     path_join := join;
     path_dirname := dirname;
     regexp_test := fun k s => inr (literalTest k s);
     regexp_replace := literalReplace |}.

Definition component (tattrs : obj value) (tcontent : string)
  (scontent : string) : descriptor :=
  {| template := Some {| type := "template"; attrs := tattrs;
                         content := tcontent |};
     script := Some {| type := "script"; attrs := []; content := scontent |};
     styles := [];
     customBlocks := [] |}.

(** The root of the chain: one extension point, [body], with a default. *)
Definition rootContent : string :=
  "<div><extension-point name='body'><p>default</p></extension-point></div>".
Definition rootSrc : string :=
  "<template>" ++ rootContent ++ "</template><script>root()</script>".
Definition rootDesc : descriptor := component [] rootContent "root()".
Definition bodyDefault : dom := [Element Tag "p" [] [Text "default"]].
Definition rootCtx : ctx := Under [] Tag "div" [] (Hole [] []) [].
Definition rootDom : dom :=
  plug rootCtx (extPoint defaultOptions [("name", "body")] bodyDefault).

(** A component that extends the root and leaves [body] open. *)
Definition midContent : string := "<extensions></extensions>".
Definition midSrc : string :=
  "<template extends='Root.vue'>" ++ midContent
  ++ "</template><script>mid()</script>".
Definition midDesc : descriptor :=
  component [("extends", VStr "Root.vue")] midContent "mid()".
Definition midDom : dom := [Element Tag "extensions" [] []].

(** A component that extends [Mid.vue] and fills [body]. *)
Definition leafContent : string :=
  "<extensions><extension point='body'><b>leaf</b></extension></extensions>".
Definition leafSrc : string :=
  "<template extends='Mid.vue'>" ++ leafContent
  ++ "</template><script>leaf()</script>".
Definition leafDesc : descriptor :=
  component [("extends", VStr "Mid.vue")] leafContent "leaf()".
Definition leafFill : dom := [Element Tag "b" [] [Text "leaf"]].
Definition leafBlock : node :=
  Element Tag "extension" [("point", "body")] leafFill.
Definition leafDom : dom := [Element Tag "extensions" [] [leafBlock]].

(** A component that extends the root directly and fills [body]. *)
Definition childSrc : string :=
  "<template extends='Root.vue'>" ++ leafContent
  ++ "</template><script>child()</script>".
Definition childDesc : descriptor :=
  component [("extends", VStr "Root.vue")] leafContent "child()".

(** Components that extend without a top-level [<extensions>]: none at
    all, and one nested in a [<div>]. *)
Definition plainSrc : string :=
  "<template extends='Root.vue'></template><script>plain()</script>".
Definition plainDesc : descriptor :=
  component [("extends", VStr "Root.vue")] "" "plain()".
Definition nestedContent : string :=
  "<div><extensions></extensions></div>".
Definition nestedSrc : string :=
  "<template extends='Root.vue'>" ++ nestedContent
  ++ "</template><script>nested()</script>".
Definition nestedDesc : descriptor :=
  component [("extends", VStr "Root.vue")] nestedContent "nested()".
Definition nestedDom : dom :=
  [Element Tag "div" [] [Element Tag "extensions" [] []]].

(** A component that fills [body] over [Plain.vue]. *)
Definition tipSrc : string :=
  "<template extends='Plain.vue'>" ++ leafContent
  ++ "</template><script>tip()</script>".
Definition tipDesc : descriptor :=
  component [("extends", VStr "Plain.vue")] leafContent "tip()".

(** A root with a point, [inner], in the default of another, [outer]. *)
Definition nestContent : string :=
  "<extension-point name='outer'><extension-point name='inner'>in"
  ++ "</extension-point></extension-point>".
Definition nestSrc : string :=
  "<template>" ++ nestContent ++ "</template><script>nest()</script>".
Definition nestDesc : descriptor := component [] nestContent "nest()".
Definition innerPoint : node :=
  extPoint defaultOptions [("name", "inner")] [Text "in"].
Definition nestDom : dom :=
  [extPoint defaultOptions [("name", "outer")] [innerPoint]].

(** A component that extends it and fills [inner] only. *)
Definition innerContent : string :=
  "<extensions><extension point='inner'><b>leaf</b></extension></extensions>".
Definition innerSrc : string :=
  "<template extends='Nest.vue'>" ++ innerContent
  ++ "</template><script>inner()</script>".
Definition innerDesc : descriptor :=
  component [("extends", VStr "Nest.vue")] innerContent "inner()".
Definition innerBlock : node :=
  Element Tag "extension" [("point", "inner")] leafFill.
Definition innerDom : dom := [Element Tag "extensions" [] [innerBlock]].
Definition innerMergedDom : dom :=
  [extPoint defaultOptions [("name", "outer")]
     [plainTemplate defaultOptions [("name", "inner")] leafFill]].

(** A component that extends it and fills [outer] only, and one that
    fills [inner] over that. *)
Definition outerContent : string :=
  "<extensions><extension point='outer'><i>mid</i></extension></extensions>".
Definition outerSrc : string :=
  "<template extends='Nest.vue'>" ++ outerContent
  ++ "</template><script>outer()</script>".
Definition outerDesc : descriptor :=
  component [("extends", VStr "Nest.vue")] outerContent "outer()".
Definition outerFill : dom := [Element Tag "i" [] [Text "mid"]].
Definition outerDom : dom :=
  [Element Tag "extensions" []
     [Element Tag "extension" [("point", "outer")] outerFill]].
Definition outerMergedDom : dom :=
  [plainTemplate defaultOptions [("name", "outer")] outerFill].
Definition deepSrc : string :=
  "<template extends='Outer.vue'>" ++ innerContent
  ++ "</template><script>deep()</script>".
Definition deepDesc : descriptor :=
  component [("extends", VStr "Outer.vue")] innerContent "deep()".

(** Components over a file that does not exist. *)
Definition orphanSrc : string :=
  "<template extends='Missing.vue'>" ++ midContent
  ++ "</template><script>orphan()</script>".
Definition orphanDesc : descriptor :=
  component [("extends", VStr "Missing.vue")] midContent "orphan()".
Definition heirSrc : string :=
  "<template extends='Orphan.vue'>" ++ leafContent
  ++ "</template><script>heir()</script>".
Definition heirDesc : descriptor :=
  component [("extends", VStr "Orphan.vue")] leafContent "heir()".

(** Components whose [extends] attribute holds no reference: the section
    splitter of this world reports the empty string for the first, and
    [true], the value of an attribute without one, for the second. *)
Definition emptyRefSrc : string := "<template extends=''></template>".
Definition emptyRefDesc : descriptor :=
  component [("extends", VStr "")] "" "".
Definition bareRefSrc : string := "<template extends></template>".
Definition bareRefDesc : descriptor :=
  component [("extends", VBool true)] "" "".

(** What the section splitter and the tree parser make of a merged source:
    the template keeps the white space of the template literal, the script
    is padded with comment lines. *)
Definition padBefore : string := nl ++ spaces 27.
Definition padAfter : string := nl ++ spaces 25.
Definition mergedContent (html : string) : string :=
  padBefore ++ html ++ padAfter.
Definition mergedDesc (html : string) (d : descriptor) : descriptor :=
  {| template := Some {| type := "template";
                         attrs := [("extendable", VBool true)];
                         content := mergedContent html |};
     script :=
       match script d with
       | Some s => Some {| type := type s; attrs := attrs s;
                           content := "//" ++ nl ++ "//" ++ nl ++ "//" ++ nl
                                      ++ content s |}
       | None => None
       end;
     styles := styles d;
     customBlocks := customBlocks d |}.
Definition mergedSrc (d : dom) (desc : descriptor) : string :=
  extendableSource defaultOptions (outerHTML d)
    (descriptorToHTML defaultOptions desc).
Definition reparsed (d : dom) : dom :=
  (Text padBefore :: d ++ [Text padAfter])%list.

(** [Mid.vue] merged with the root, and [Leaf.vue] merged with that. *)
Definition filledDom : dom :=
  plug rootCtx (plainTemplate defaultOptions [("name", "body")] leafFill).
Definition leafMergedDom : dom := reparsed filledDom.

Definition descs : obj descriptor :=
  [ (rootSrc, rootDesc); (midSrc, midDesc); (leafSrc, leafDesc);
    (childSrc, childDesc); (plainSrc, plainDesc); (nestedSrc, nestedDesc);
    (tipSrc, tipDesc); (orphanSrc, orphanDesc); (heirSrc, heirDesc);
    (emptyRefSrc, emptyRefDesc); (bareRefSrc, bareRefDesc);
    (nestSrc, nestDesc); (innerSrc, innerDesc); (outerSrc, outerDesc);
    (deepSrc, deepDesc);
    (mergedSrc innerMergedDom innerDesc,
     mergedDesc (outerHTML innerMergedDom) innerDesc);
    (mergedSrc outerMergedDom outerDesc,
     mergedDesc (outerHTML outerMergedDom) outerDesc);
    (mergedSrc (reparsed outerMergedDom) deepDesc,
     mergedDesc (outerHTML (reparsed outerMergedDom)) deepDesc);
    (mergedSrc rootDom midDesc, mergedDesc (outerHTML rootDom) midDesc);
    (mergedSrc filledDom childDesc, mergedDesc (outerHTML filledDom) childDesc);
    (mergedSrc leafMergedDom leafDesc,
     mergedDesc (outerHTML leafMergedDom) leafDesc) ].

Definition doms : obj dom :=
  [ (rootContent, rootDom); (midContent, midDom); (leafContent, leafDom);
    (nestedContent, nestedDom); (nestContent, nestDom);
    (innerContent, innerDom); (outerContent, outerDom);
    (mergedContent (outerHTML innerMergedDom), reparsed innerMergedDom);
    (mergedContent (outerHTML outerMergedDom), reparsed outerMergedDom);
    (mergedContent (outerHTML (reparsed outerMergedDom)),
     reparsed (reparsed outerMergedDom));
    (mergedContent (outerHTML rootDom), reparsed rootDom);
    (mergedContent (outerHTML filledDom), reparsed filledDom);
    (mergedContent (outerHTML leafMergedDom), reparsed leafMergedDom) ].

Definition files : obj string :=
  [ ("/proj/src/Root.vue", rootSrc); ("/proj/src/Mid.vue", midSrc);
    ("/proj/src/Leaf.vue", leafSrc); ("/proj/src/Plain.vue", plainSrc);
    ("/proj/src/Orphan.vue", orphanSrc); ("/proj/src/Nest.vue", nestSrc);
    ("/proj/src/Outer.vue", outerSrc) ].

Definition libs : Libs := tableLibs descs doms files.

(** The values the promises of the examples are resolved with. *)
Definition childResolved : resolved :=
  {| source := Some (mergedSrc filledDom childDesc);
     ancestorsPaths := ["/proj/src/Root.vue"] |}.
Definition leafResolved : resolved :=
  {| source := Some (mergedSrc leafMergedDom leafDesc);
     ancestorsPaths := ["/proj/src/Root.vue"; "/proj/src/Mid.vue"] |}.
Definition rootResolved : resolved :=
  {| source := Some rootSrc; ancestorsPaths := [] |}.

Definition templateOf (d : descriptor) : block :=
  match template d with
  | Some t => t
  | None => {| type := "template"; attrs := []; content := "" |}
  end.

Definition noChildren : exn :=
  TypeError "Cannot read property 'children' of undefined".
Definition missing : exn := IOError "ENOENT" "/proj/src/Missing.vue".

(** The root's tree and the leaf's extension block as objects, and a
    store that has them. *)
Definition rootL : list lnode :=
  [LElement 0 Tag "div" []
     [LElement 1 Tag "extension-point" [("name", "body")]
        [LElement 2 Tag "p" [] [LText 3 "default"]]]].
Definition leafBlockL : lnode :=
  LElement 11 Tag "extension" [("point", "body")]
    [LElement 12 Tag "b" [] [LText 13 "leaf"]].
Definition heap : store :=
  fun r =>
    option_map snd
      (find (fun rc => Nat.eqb (fst rc) r)
            (flat_map cells
               (rootL ++ [LElement 10 Tag "extensions" [] [leafBlockL]]))).

(** Alias tables, without and with the sentinel. *)
Definition plainAliases : obj value :=
  [("a", VStr "/x"); ("lib", VStr "/libs")].
Definition jestAliases : obj value :=
  ("__fromJest", VBool true) :: plainAliases.

Definition run1 (fuel : nat) (src : string) : run :=
  getMergedCode libs defaultOptions fuel (Some src) "/proj/src" [].

End Demo.

(** * Properties *)

(** ** Objects and trees *)

Lemma get_delete (V : Type) (o : obj V) (k : string) :
  get (delete o k) k = None.
Proof.
  induction o as [|[k' v] o IH]; simpl; [reflexivity|].
  destruct (k' =? k) eqn:E; [exact IH|].
  simpl. rewrite E. exact IH.
Qed.

Lemma delete_delete (V : Type) (o : obj V) (k : string) :
  delete (delete o k) k = delete o k.
Proof.
  induction o as [|[k' v] o IH]; simpl; [reflexivity|].
  destruct (k' =? k) eqn:E; [exact IH|].
  simpl. rewrite E, IH. reflexivity.
Qed.

Lemma find_none_iff (A : Type) (f : A -> bool) (l : list A) :
  find f l = None <-> (forall y, In y l -> f y = false).
Proof.
  split.
  - intros H y Hy. exact (find_none f l H y Hy).
  - induction l as [|x l IH]; simpl; intros H; [reflexivity|].
    rewrite (H x (or_introl eq_refl)). apply IH.
    intros y Hy. apply H. right. exact Hy.
Qed.

Section TreeLemmas.
Variable options : Options.


Lemma countDom_cons (n : node) (d : dom) :
  countDom options (n :: d) = countNode options n + countDom options d.
Proof.
  unfold countDom, countNode, findDomElementsByTagName. simpl.
  apply length_app.
Qed.

Lemma countNode_element (ty : elemType) (nm : string) (at_ : obj string)
  (ch : dom) :
  countNode options (Element ty nm at_ ch)
  = (if isExtPoint options ty nm then 1 else 0) + countDom options ch.
Proof.
  unfold countNode, countDom, findDomElementsByTagName, isExtPoint.
  cbn [findAllFrom]. rewrite length_app.
  destruct (isTagNamed (EXT_POINT_TAG options) ty nm); reflexivity.
Qed.





(** A tree without extension points goes through the merge unchanged. *)
Lemma mergeDom_clean (exts d : dom) :
  countDom options d = 0 -> mergeDom options exts d = d.
Proof.
  revert d.
  apply (dom_ind
           (fun n => countNode options n = 0 -> mergeNode options exts n = n)
           (fun d => countDom options d = 0 -> mergeDom options exts d = d)).
  - reflexivity.
  - reflexivity.
  - intros ty nm at_ ch IH H. rewrite countNode_element in H.
    cbn [mergeNode]. destruct (isExtPoint options ty nm); [lia|].
    fold (mergeDom options exts ch). rewrite IH by lia. reflexivity.
  - reflexivity.
  - intros n d IHn IHd H. rewrite countDom_cons in H.
    unfold mergeDom in *. simpl. rewrite IHn, IHd by lia. reflexivity.
Qed.



Lemma isExtPoint_point :
  isExtPoint options Tag (EXT_POINT_TAG options) = true.
Proof. unfold isExtPoint, isTagNamed. simpl. apply String.eqb_refl. Qed.


Lemma mergeNode_filled (exts : dom) (at_ : obj string) (D : dom) (blk : node) :
  findExtendBlock options exts at_ = Some blk ->
  mergeNode options exts (extPoint options at_ D)
  = plainTemplate options at_ (nodeChildren blk).
Proof.
  intros H. unfold extPoint. simpl. rewrite isExtPoint_point, H. reflexivity.
Qed.


Lemma finalizeNode_point (at_ : obj string) (D : dom) :
  finalizeNode options (extPoint options at_ D)
  = plainTemplate options at_ (finalizeDom options D).
Proof.
  unfold extPoint. simpl. rewrite isExtPoint_point. reflexivity.
Qed.



End TreeLemmas.

Section ContextLemmas.
Variable options : Options.






Lemma holeKept_clean (exts : dom) (c : ctx) :
  countCtx options c = 0 -> holeKept options exts c = true.
Proof.
  induction c as [b a|b ty nm at_ c IH a]; simpl; intros H; [reflexivity|].
  destruct (isExtPoint options ty nm); [lia|]. simpl. apply IH. lia.
Qed.

Lemma mergeCtx_clean (exts : dom) (c : ctx) :
  countCtx options c = 0 -> mergeCtx options exts c = c.
Proof.
  induction c as [b a|b ty nm at_ c IH a]; simpl; intros H.
  - rewrite !mergeDom_clean by lia. reflexivity.
  - destruct (isExtPoint options ty nm); [lia|].
    rewrite IH by lia. rewrite !mergeDom_clean by lia. reflexivity.
Qed.

End ContextLemmas.

(** ** The loops over the store *)

Lemma NoDup_app_disjoint (A : Type) (l1 l2 : list A) :
  NoDup (l1 ++ l2)%list -> forall a, In a l1 -> ~ In a l2.
Proof.
  induction l1 as [|x l1 IH]; simpl; intros Hnd a Hin; [destruct Hin|].
  apply NoDup_cons_iff in Hnd. destruct Hnd as [Hx Hnd].
  destruct Hin as [->|Hin].
  - intros H2. apply Hx. apply in_or_app. right. exact H2.
  - apply IH; assumption.
Qed.

Lemma cells_eq (n : lnode) :
  cells n = (root n, cellOf n) :: flat_map cells (lchildren n).
Proof. destruct n; reflexivity. Qed.

Lemma refs_app (a b : list lnode) :
  refs (a ++ b)%list = (refs a ++ refs b)%list.
Proof. unfold refs. rewrite flat_map_app, map_app. reflexivity. Qed.

Lemma refs_cons (n : lnode) (f : list lnode) :
  refs (n :: f) = root n :: (refs (lchildren n) ++ refs f)%list.
Proof.
  unfold refs. cbn [flat_map]. rewrite cells_eq, map_app. reflexivity.
Qed.

Lemma holds_nil (h : store) : holds h [].
Proof. constructor. Qed.

Lemma holds_app (h : store) (a b : list lnode) :
  holds h (a ++ b)%list <-> holds h a /\ holds h b.
Proof. unfold holds. rewrite flat_map_app. apply Forall_app. Qed.

Lemma holds_cons (h : store) (n : lnode) (f : list lnode) :
  holds h (n :: f) <->
  h (root n) = Some (cellOf n) /\ holds h (lchildren n) /\ holds h f.
Proof.
  unfold holds. cbn [flat_map]. rewrite cells_eq. cbn [app].
  rewrite Forall_cons_iff, Forall_app. reflexivity.
Qed.

(** A store that agrees with [h] on the references of [f] has [f] too. *)
Lemma holds_frame (h h' : store) (f : list lnode) :
  (forall r, In r (refs f) -> h' r = h r) -> holds h f -> holds h' f.
Proof.
  unfold holds, refs. intros Hsame Hf.
  apply Forall_forall. intros rc Hin.
  rewrite Forall_forall in Hf. rewrite Hsame; [exact (Hf rc Hin)|].
  apply in_map. exact Hin.
Qed.

Lemma holds_member (h : store) (blocks : list lnode) (b : lnode) :
  In b blocks -> holds h blocks ->
  h (root b) = Some (cellOf b) /\ holds h (lchildren b).
Proof.
  intros Hin. induction blocks as [|b' blocks IH]; [destruct Hin|].
  rewrite holds_cons. intros (Hcell & Hch & Hrest).
  destruct Hin as [->|Hin]; [split; assumption|exact (IH Hin Hrest)].
Qed.

Lemma refs_member (blocks : list lnode) (b : lnode) (r : nat) :
  In b blocks -> In r (root b :: refs (lchildren b)) -> In r (refs blocks).
Proof.
  intros Hin Hr. induction blocks as [|b' blocks IH]; [destruct Hin|].
  rewrite refs_cons.
  destruct Hin as [->|Hin].
  - destruct Hr as [Hr|Hr]; [left; exact Hr|].
    right. apply in_or_app. left. exact Hr.
  - right. apply in_or_app. right. exact (IH Hin).
Qed.

Lemma write_same (h : store) (r : nat) (c : cell) : write h r c r = Some c.
Proof. unfold write. rewrite Nat.eqb_refl. reflexivity. Qed.

Lemma write_other (h : store) (r r' : nat) (c : cell) :
  r' <> r -> write h r c r' = h r'.
Proof.
  intros Hne. unfold write. apply Nat.eqb_neq in Hne. rewrite Hne.
  reflexivity.
Qed.

Section StoreLemmas.
Variable options : Options.
Variable blocks : list lnode.

Lemma pointRefs_refs (f : list lnode) (r : nat) :
  In r (pointRefs options f) -> In r (refs f).
Proof.
  revert f r.
  apply (forest_ind
           (fun n => forall r, In r (pointRefsFrom options n) ->
                               In r (refs [n]))
           (fun f => forall r, In r (pointRefs options f) -> In r (refs f))).
  - intros r s q [].
  - intros r s q [].
  - intros r ty nm at_ ch IH q Hin. cbn [pointRefsFrom] in Hin.
    rewrite refs_cons. cbn [root lchildren].
    apply in_app_or in Hin. destruct Hin as [Hin|Hin].
    + destruct (isExtPoint options ty nm); [|destruct Hin].
      destruct Hin as [->|[]]. left. reflexivity.
    + right. apply in_or_app. left. apply IH. exact Hin.
  - intros r [].
  - intros n f IHn IHf r Hin. unfold pointRefs in Hin. cbn [flat_map] in Hin.
    apply in_app_or in Hin.
    change (n :: f) with ([n] ++ f)%list. rewrite refs_app. apply in_or_app.
    destruct Hin as [Hin|Hin]; [left; apply IHn|right; apply IHf]; exact Hin.
Qed.

(** The loops write at the references they are given, nowhere else. *)
Lemma fillPoints_frame (exts : list nat) (points : list nat) (h : store)
  (r : nat) :
  ~ In r points -> fillPoints options exts h points r = h r.
Proof.
  revert h. induction points as [|p points IH]; intros h Hnot; [reflexivity|].
  unfold fillPoints in *. cbn [fold_left].
  rewrite IH by (intros Hin; apply Hnot; right; exact Hin).
  assert (Hne : r <> p) by (intros ->; apply Hnot; left; reflexivity).
  unfold fillPoint. destruct (h p) as [[s|s|ty nm at_ ch]|]; try reflexivity.
  destruct (find _ exts) as [b|]; [|reflexivity].
  destruct (h b) as [[s|s|bty bnm bat bch]|]; try reflexivity.
  apply write_other. exact Hne.
Qed.

Lemma retagPoints_frame (points : list nat) (h : store) (r : nat) :
  ~ In r points -> retagPoints options h points r = h r.
Proof.
  revert h. induction points as [|p points IH]; intros h Hnot; [reflexivity|].
  unfold retagPoints in *. cbn [fold_left].
  rewrite IH by (intros Hin; apply Hnot; right; exact Hin).
  assert (Hne : r <> p) by (intros ->; apply Hnot; left; reflexivity).
  unfold retagPoint. destruct (h p) as [[s|s|ty nm at_ ch]|]; try reflexivity.
  apply write_other. exact Hne.
Qed.

Lemma root_mergeL (n : lnode) : root (mergeL options blocks n) = root n.
Proof.
  destruct n as [r s|r s|r ty nm at_ ch]; try reflexivity.
  cbn [mergeL]. destruct (isExtPoint options ty nm); [|reflexivity].
  destruct (find _ blocks); reflexivity.
Qed.

Lemma roots_mergeL (f : list lnode) :
  map root (map (mergeL options blocks) f) = map root f.
Proof.
  rewrite map_map. apply map_ext. apply root_mergeL.
Qed.

Lemma root_finalizeL (n : lnode) : root (finalizeL options n) = root n.
Proof.
  destruct n as [r s|r s|r ty nm at_ ch]; try reflexivity.
  cbn [finalizeL]. destruct (isExtPoint options ty nm); reflexivity.
Qed.

Lemma roots_finalizeL (f : list lnode) :
  map root (map (finalizeL options) f) = map root f.
Proof.
  rewrite map_map. apply map_ext. apply root_finalizeL.
Qed.

Lemma refs_finalizeL (f : list lnode) :
  refs (map (finalizeL options) f) = refs f.
Proof.
  revert f.
  apply (forest_ind
           (fun n => refs [finalizeL options n] = refs [n])
           (fun f => refs (map (finalizeL options) f) = refs f)).
  - reflexivity.
  - reflexivity.
  - intros r ty nm at_ ch IH. cbn [finalizeL].
    destruct (isExtPoint options ty nm);
      rewrite !refs_cons; cbn [root lchildren]; rewrite IH; reflexivity.
  - reflexivity.
  - intros n f IHn IHf. cbn [map].
    change (finalizeL options n :: map (finalizeL options) f)
      with ([finalizeL options n] ++ map (finalizeL options) f)%list.
    change (n :: f) with ([n] ++ f)%list.
    rewrite !refs_app, IHn, IHf. reflexivity.
Qed.

(** The search of line 128 among the references of the blocks finds the
    reference of the block found among the blocks themselves. *)
Lemma find_refersTo (h : store) (name : option string) :
  holds h blocks ->
  forallb isLElement blocks = true ->
  find (refersTo options h name) (map root blocks)
  = option_map root
      (find (fun b => eqb_ostring
                        (get (lattribs b) (EXT_POINT_REF_ATTR options)) name)
            blocks).
Proof.
  induction blocks as [|b bs IH]; [reflexivity|].
  rewrite holds_cons. intros (Hcell & _ & Hrest) Hel.
  cbn [forallb] in Hel. apply andb_true_iff in Hel. destruct Hel as [Hb Hel].
  cbn [map find]. unfold refersTo at 1. rewrite Hcell.
  destruct b as [r s|r s|r ty nm at_ ch]; try discriminate.
  cbn [cellOf lattribs].
  destruct (eqb_ostring _ name); [reflexivity|exact (IH Hrest Hel)].
Qed.

(** After the merge a tree has references of its own or of the blocks. *)
Lemma refs_mergeL (f : list lnode) (r : nat) :
  In r (refs (map (mergeL options blocks) f)) ->
  In r (refs f) \/ In r (refs blocks).
Proof.
  revert f r.
  apply (forest_ind
           (fun n => forall r, In r (refs [mergeL options blocks n]) ->
                               In r (refs [n])
                               \/ In r (refs blocks))
           (fun f => forall r, In r (refs (map (mergeL options blocks) f)) ->
                               In r (refs f)
                               \/ In r (refs blocks))).
  - intros r s q H. left. exact H.
  - intros r s q H. left. exact H.
  - intros r ty nm at_ ch IH q. cbn [mergeL].
    assert (Hkeep :
              In q (refs [LElement r ty nm at_
                            (map (mergeL options blocks) ch)]) ->
              In q (refs [LElement r ty nm at_ ch])
              \/ In q (refs blocks)).
    { rewrite !refs_cons. cbn [root lchildren refs flat_map map app].
      rewrite !app_nil_r. intros [->|Hin]; [left; left; reflexivity|].
      destruct (IH q Hin) as [H|H]; [left; right; exact H|right; exact H]. }
    destruct (isExtPoint options ty nm); [|exact Hkeep].
    destruct (find _ blocks) as [b|] eqn:E; [|exact Hkeep].
    rewrite !refs_cons. cbn [root lchildren refs flat_map map app].
    rewrite !app_nil_r. intros [->|Hin]; [left; left; reflexivity|].
    right. apply find_some in E.
    exact (refs_member blocks b q (proj1 E) (or_intror Hin)).
  - intros r [].
  - intros n f IHn IHf r. cbn [map].
    change (mergeL options blocks n :: map (mergeL options blocks) f)
      with ([mergeL options blocks n] ++ map (mergeL options blocks) f)%list.
    change (n :: f) with ([n] ++ f)%list.
    rewrite !refs_app. intros Hin. apply in_app_or in Hin.
    destruct Hin as [Hin|Hin].
    + destruct (IHn r Hin) as [H|H]; [left; apply in_or_app; left|right];
        exact H.
    + destruct (IHf r Hin) as [H|H]; [left; apply in_or_app; right|right];
        exact H.
Qed.

End StoreLemmas.

Section StoreMerge.
Variable options : Options.
Variable blocks : list lnode.

Hypothesis blocks_elements : forallb isLElement blocks = true.

(** The loop of lines 126-138 run over a store that has the base tree [f],
    no object twice, and the extension blocks somewhere else: the store
    then has [mergeL] of the tree. *)
Lemma fillPoints_mergeL (f : list lnode) :
  forall h,
    NoDup (refs f) ->
    holds h f ->
    holds h blocks ->
    (forall r, In r (refs f) -> ~ In r (refs blocks)) ->
    holds (fillPoints options (map root blocks) h (pointRefs options f))
          (map (mergeL options blocks) f).
Proof.
  set (V := map root blocks).
  set (BC := blocks).
  revert f.
  apply (forest_ind
           (fun n => forall h,
                NoDup (refs [n]) -> holds h [n] -> holds h BC ->
                (forall r, In r (refs [n]) -> ~ In r (refs BC)) ->
                holds (fillPoints options V h (pointRefsFrom options n))
                      [mergeL options blocks n])
           (fun f => forall h,
                NoDup (refs f) -> holds h f -> holds h BC ->
                (forall r, In r (refs f) -> ~ In r (refs BC)) ->
                holds (fillPoints options V h (pointRefs options f))
                      (map (mergeL options blocks) f))).
  - intros r s h _ Hn _ _. exact Hn.
  - intros r s h _ Hn _ _. exact Hn.
  - intros r ty nm at_ ch IH h Hnd Hn HB Hdis.
    rewrite refs_cons in Hnd, Hdis.
    cbn [root lchildren refs flat_map map] in Hnd, Hdis.
    rewrite app_nil_r in Hnd, Hdis.
    apply NoDup_cons_iff in Hnd. destruct Hnd as [Hr Hnd].
    apply holds_cons in Hn. cbn [root cellOf lchildren] in Hn.
    destruct Hn as (Hcell & Hch & _).
    assert (Hrp : ~ In r (pointRefs options ch))
      by (intros Hin; apply Hr; apply pointRefs_refs with (options := options);
          exact Hin).
    (* the point is left as it is: the loop goes on below it *)
    assert (Hkeep :
              holds (fillPoints options V h (pointRefs options ch))
                    [LElement r ty nm at_ (map (mergeL options blocks) ch)]).
    { apply holds_cons. cbn [root cellOf lchildren].
      split; [|split; [|apply holds_nil]].
      - rewrite fillPoints_frame by exact Hrp.
        rewrite roots_mergeL. exact Hcell.
      - apply IH; try assumption.
        intros q Hq. apply Hdis. right. exact Hq. }
    cbn [pointRefsFrom mergeL].
    destruct (isExtPoint options ty nm); [|exact Hkeep].
    unfold fillPoints. rewrite fold_left_app. cbn [fold_left].
    fold (fillPoints options V (fillPoint options V h r)
            (flat_map (pointRefsFrom options) ch)).
    fold (pointRefs options ch).
    unfold fillPoint at 1. rewrite Hcell.
    unfold V at 2.
    rewrite (find_refersTo options blocks h _ HB blocks_elements).
    destruct (find _ blocks) as [b|] eqn:E; cbn [option_map]; [|exact Hkeep].
    apply find_some in E. destruct E as [Hb _].
    destruct (holds_member h blocks b Hb HB) as [Hbcell Hbch].
    rewrite Hbcell.
    assert (Hbel : isLElement b = true)
      by (rewrite forallb_forall in blocks_elements;
          exact (blocks_elements b Hb)).
    destruct b as [br s|br s|br bty bnm bat bch]; try discriminate.
    cbn [cellOf lchildren] in *.
    apply holds_cons. cbn [root cellOf lchildren].
    split; [|split; [|apply holds_nil]].
    + rewrite fillPoints_frame by exact Hrp. apply write_same.
    + apply holds_frame with (h := h); [|exact Hbch].
      intros q Hq.
      pose proof (refs_member blocks _ q Hb (or_intror Hq)) as HqB.
      rewrite fillPoints_frame.
      * apply write_other. intros ->. apply (Hdis r); [left; reflexivity|].
        exact HqB.
      * intros Hin. apply (Hdis q); [|exact HqB].
        right. apply pointRefs_refs with (options := options). exact Hin.
  - intros h _ _ _ _. apply holds_nil.
  - intros n f IHn IHf h Hnd Hnf HB Hdis.
    change (n :: f) with ([n] ++ f)%list in Hnd, Hnf, Hdis.
    rewrite refs_app in Hnd, Hdis. apply holds_app in Hnf.
    destruct Hnf as [Hn Hf].
    pose proof (NoDup_app_remove_r _ _ Hnd) as Hndn.
    pose proof (NoDup_app_remove_l _ _ Hnd) as Hndf.
    pose proof (NoDup_app_disjoint _ _ _ Hnd) as Hnf.
    unfold pointRefs. cbn [flat_map map]. unfold fillPoints.
    rewrite fold_left_app.
    fold (fillPoints options V h (pointRefsFrom options n)).
    set (h1 := fillPoints options V h (pointRefsFrom options n)).
    fold (pointRefs options f).
    fold (fillPoints options V h1 (pointRefs options f)).
    assert (Hfirst : forall q, ~ In q (refs [n]) -> h1 q = h q).
    { intros q Hq. unfold h1. apply fillPoints_frame. intros Hin. apply Hq.
      apply (pointRefs_refs options [n]). unfold pointRefs. cbn [flat_map].
      rewrite app_nil_r. exact Hin. }
    assert (Hn1 : holds h1 [mergeL options blocks n]).
    { apply IHn; try assumption.
      intros q Hq. apply Hdis. apply in_or_app. left. exact Hq. }
    assert (Hf1 : holds h1 f).
    { apply holds_frame with (h := h); [|exact Hf].
      intros q Hq. apply Hfirst. intros Hqn. exact (Hnf q Hqn Hq). }
    assert (HB1 : holds h1 BC).
    { apply holds_frame with (h := h); [|exact HB].
      intros q Hq. apply Hfirst. intros Hqn.
      apply (Hdis q); [apply in_or_app; left; exact Hqn|exact Hq]. }
    change (mergeL options blocks n :: map (mergeL options blocks) f)
      with ([mergeL options blocks n] ++ map (mergeL options blocks) f)%list.
    apply holds_app. split.
    + apply holds_frame with (h := h1); [|exact Hn1].
      intros q Hq. apply fillPoints_frame. intros Hin.
      pose proof (pointRefs_refs options f q Hin) as Hqf.
      destruct (refs_mergeL options blocks [n] q) as [Hqn|HqB].
      * cbn [map]. exact Hq.
      * exact (Hnf q Hqn Hqf).
      * apply (Hdis q); [apply in_or_app; right; exact Hqf|exact HqB].
    + apply IHf; try assumption.
      intros q Hq. apply Hdis. apply in_or_app. right. exact Hq.
Qed.

Lemma erase_mergeL (f : list lnode) :
  map erase (map (mergeL options blocks) f)
  = mergeDom options (map erase blocks) (map erase f).
Proof.
  clear blocks_elements.
  assert (Hfind : forall at_,
             findExtendBlock options (map erase blocks) at_
             = option_map erase
                 (find (fun b => eqb_ostring
                                   (get (lattribs b)
                                      (EXT_POINT_REF_ATTR options))
                                   (get at_ (EXT_POINT_NAME_ATTR options)))
                       blocks)).
  { intros at_. unfold findExtendBlock.
    induction blocks as [|b bs IH]; [reflexivity|].
    cbn [map find option_map].
    replace (nodeAttribs (erase b)) with (lattribs b)
      by (destruct b; reflexivity).
    destruct (eqb_ostring _ _); [reflexivity|exact IH]. }
  revert f.
  apply (forest_ind
           (fun n => erase (mergeL options blocks n)
                     = mergeNode options (map erase blocks) (erase n))
           (fun f => map erase (map (mergeL options blocks) f)
                     = mergeDom options (map erase blocks) (map erase f))).
  - reflexivity.
  - reflexivity.
  - intros r ty nm at_ ch IH. cbn [mergeL erase mergeNode].
    fold (mergeDom options (map erase blocks) (map erase ch)).
    rewrite Hfind.
    destruct (isExtPoint options ty nm);
      [|cbn [erase]; rewrite IH; reflexivity].
    destruct (find _ blocks) as [b|]; cbn [option_map erase].
    + destruct b; reflexivity.
    + rewrite IH. reflexivity.
  - reflexivity.
  - intros n f IHn IHf. cbn [map]. unfold mergeDom in *. cbn [map].
    rewrite IHn, IHf. reflexivity.
Qed.

(** The loop of lines 54-57 run over a store that has the tree [f], no
    object twice: the store then has [finalizeL] of the tree. *)
Lemma retagPoints_finalizeL (f : list lnode) :
  forall h,
    NoDup (refs f) ->
    holds h f ->
    holds (retagPoints options h (pointRefs options f))
          (map (finalizeL options) f).
Proof.
  revert f.
  apply (forest_ind
           (fun n => forall h,
                NoDup (refs [n]) -> holds h [n] ->
                holds (retagPoints options h (pointRefsFrom options n))
                      [finalizeL options n])
           (fun f => forall h,
                NoDup (refs f) -> holds h f ->
                holds (retagPoints options h (pointRefs options f))
                      (map (finalizeL options) f))).
  - intros r s h _ Hn. exact Hn.
  - intros r s h _ Hn. exact Hn.
  - intros r ty nm at_ ch IH h Hnd Hn.
    rewrite refs_cons in Hnd. cbn [root lchildren refs flat_map map] in Hnd.
    rewrite app_nil_r in Hnd.
    apply NoDup_cons_iff in Hnd. destruct Hnd as [Hr Hnd].
    apply holds_cons in Hn. cbn [root cellOf lchildren] in Hn.
    destruct Hn as (Hcell & Hch & _).
    assert (Hrp : ~ In r (pointRefs options ch))
      by (intros Hin; apply Hr; apply pointRefs_refs with (options := options);
          exact Hin).
    cbn [pointRefsFrom finalizeL].
    destruct (isExtPoint options ty nm).
    + unfold retagPoints. rewrite fold_left_app. cbn [fold_left].
      fold (pointRefs options ch).
      fold (retagPoints options (retagPoint options h r)
              (pointRefs options ch)).
      apply holds_cons. cbn [root cellOf lchildren].
      split; [|split; [|apply holds_nil]].
      * rewrite retagPoints_frame by exact Hrp.
        unfold retagPoint. rewrite Hcell, roots_finalizeL. apply write_same.
      * apply IH; [exact Hnd|].
        apply holds_frame with (h := h); [|exact Hch].
        intros q Hq. unfold retagPoint. rewrite Hcell.
        apply write_other. intros ->. exact (Hr Hq).
    + cbn [app]. fold (pointRefs options ch).
      apply holds_cons. cbn [root cellOf lchildren].
      split; [|split; [|apply holds_nil]].
      * rewrite retagPoints_frame by exact Hrp.
        rewrite roots_finalizeL. exact Hcell.
      * apply IH; assumption.
  - intros h _ _. apply holds_nil.
  - intros n f IHn IHf h Hnd Hnf.
    change (n :: f) with ([n] ++ f)%list in Hnd, Hnf.
    rewrite refs_app in Hnd. apply holds_app in Hnf.
    destruct Hnf as [Hn Hf].
    pose proof (NoDup_app_remove_r _ _ Hnd) as Hndn.
    pose proof (NoDup_app_remove_l _ _ Hnd) as Hndf.
    pose proof (NoDup_app_disjoint _ _ _ Hnd) as Hdis.
    unfold pointRefs. cbn [flat_map map]. unfold retagPoints.
    rewrite fold_left_app.
    fold (retagPoints options h (pointRefsFrom options n)).
    set (h1 := retagPoints options h (pointRefsFrom options n)).
    fold (pointRefs options f).
    fold (retagPoints options h1 (pointRefs options f)).
    assert (Hfirst : forall q, ~ In q (refs [n]) -> h1 q = h q).
    { intros q Hq. unfold h1. apply retagPoints_frame. intros Hin. apply Hq.
      apply (pointRefs_refs options [n]). unfold pointRefs. cbn [flat_map].
      rewrite app_nil_r. exact Hin. }
    change (finalizeL options n :: map (finalizeL options) f)
      with ([finalizeL options n] ++ map (finalizeL options) f)%list.
    apply holds_app. split.
    + apply holds_frame with (h := h1); [|apply IHn; assumption].
      intros q Hq. apply retagPoints_frame. intros Hin.
      pose proof (pointRefs_refs options f q Hin) as Hqf.
      apply (Hdis q); [|exact Hqf].
      rewrite <- (refs_finalizeL options [n]). exact Hq.
    + apply IHf; [exact Hndf|].
      apply holds_frame with (h := h); [|exact Hf].
      intros q Hq. apply Hfirst. intros Hqn. exact (Hdis q Hqn Hq).
Qed.

End StoreMerge.

Section StoreTrees.
Variable options : Options.

(** The references the search returns are those of the extension points
    of the tree, in the order of [findDomElementsByTagName]. *)
Lemma pointRefs_points (f : list lnode) :
  pointRefs options f = map root (flat_map (pointsFrom options) f)
  /\ map erase (flat_map (pointsFrom options) f)
     = findDomElementsByTagName (map erase f) (EXT_POINT_TAG options).
Proof.
  revert f.
  apply (forest_ind
           (fun n => pointRefsFrom options n
                     = map root (pointsFrom options n)
                     /\ map erase (pointsFrom options n)
                        = findAllFrom (EXT_POINT_TAG options) (erase n))
           (fun f => pointRefs options f
                     = map root (flat_map (pointsFrom options) f)
                     /\ map erase (flat_map (pointsFrom options) f)
                        = findDomElementsByTagName (map erase f)
                            (EXT_POINT_TAG options))).
  - split; reflexivity.
  - split; reflexivity.
  - intros r ty nm at_ ch [IHr IHe].
    cbn [pointRefsFrom pointsFrom erase findAllFrom].
    fold (pointRefs options ch).
    fold (findDomElementsByTagName (map erase ch) (EXT_POINT_TAG options)).
    rewrite !map_app, IHr, IHe. unfold isExtPoint.
    destruct (isTagNamed (EXT_POINT_TAG options) ty nm); split; reflexivity.
  - split; reflexivity.
  - intros n f [IHnr IHne] [IHfr IHfe].
    unfold pointRefs, findDomElementsByTagName in *. cbn [flat_map map].
    rewrite !map_app, IHnr, IHne, IHfr, IHfe. split; reflexivity.
Qed.

Lemma erase_finalizeL (f : list lnode) :
  map erase (map (finalizeL options) f) = finalizeDom options (map erase f).
Proof.
  revert f.
  apply (forest_ind
           (fun n => erase (finalizeL options n)
                     = finalizeNode options (erase n))
           (fun f => map erase (map (finalizeL options) f)
                     = finalizeDom options (map erase f))).
  - reflexivity.
  - reflexivity.
  - intros r ty nm at_ ch IH. cbn [finalizeL erase finalizeNode].
    fold (finalizeDom options (map erase ch)).
    destruct (isExtPoint options ty nm); cbn [erase]; rewrite IH;
      reflexivity.
  - reflexivity.
  - intros n f IHn IHf. cbn [map]. unfold finalizeDom in *. cbn [map].
    rewrite IHn, IHf. reflexivity.
Qed.

End StoreTrees.

(** A store has at most one tree at given roots: the tree that
    [getOuterHTML] writes out from them. *)
Lemma holds_unique (h : store) (f : list lnode) :
  forall g, holds h f -> holds h g -> map root f = map root g -> f = g.
Proof.
  revert f.
  apply (forest_ind
           (fun n => forall m, holds h [n] -> holds h [m] ->
                               root n = root m -> n = m)
           (fun f => forall g, holds h f -> holds h g ->
                               map root f = map root g -> f = g)).
  - intros r s m Hn Hm Hr. apply holds_cons in Hn, Hm.
    destruct Hn as [Hn _], Hm as [Hm _]. rewrite Hr, Hm in Hn.
    destruct m; cbn in Hn, Hr; congruence.
  - intros r s m Hn Hm Hr. apply holds_cons in Hn, Hm.
    destruct Hn as [Hn _], Hm as [Hm _]. rewrite Hr, Hm in Hn.
    destruct m; cbn in Hn, Hr; congruence.
  - intros r ty nm at_ ch IH m Hn Hm Hr. apply holds_cons in Hn, Hm.
    destruct Hn as (Hn & Hch & _), Hm as (Hm & Hmch & _).
    rewrite Hr, Hm in Hn.
    destruct m as [r' s|r' s|r' ty' nm' at' ch']; cbn in Hn, Hr;
      try discriminate.
    injection Hn as -> -> -> Hroots. subst r'.
    rewrite (IH ch' Hch Hmch (eq_sym Hroots)). reflexivity.
  - intros [|m g] _ _ Hr; [reflexivity|discriminate].
  - intros n f IHn IHf [|m g] Hnf Hmg Hr; [discriminate|].
    injection Hr as Hr Hrs.
    change (n :: f) with ([n] ++ f)%list in Hnf.
    change (m :: g) with ([m] ++ g)%list in Hmg.
    apply holds_app in Hnf, Hmg.
    rewrite (IHn m (proj1 Hnf) (proj1 Hmg) Hr).
    rewrite (IHf g (proj2 Hnf) (proj2 Hmg) Hrs). reflexivity.
Qed.

(** X1.  The loop of lines 126-138 is [mergeDom]: when the store has the
    base tree [f], no object twice, and the extension blocks (elements) apart
    from it, the loop over the references of the extension points leaves
    in the store, at the same roots, a tree that is [mergeDom] of what [f]
    was. *)
Theorem fillPoints_merge :
  forall (options : Options) (blocks f : list lnode) (h : store),
    forallb isLElement blocks = true ->
    NoDup (refs f) ->
    holds h f ->
    holds h blocks ->
    (forall r, In r (refs f) -> ~ In r (refs blocks)) ->
    exists f',
      holds (fillPoints options (map root blocks) h
               (pointRefs options f)) f'
      /\ map root f' = map root f
      /\ map erase f' = mergeDom options (map erase blocks) (map erase f).
Proof.
  intros options blocks f h Hel Hnd Hf HB Hdis.
  exists (map (mergeL options blocks) f).
  split; [|split].
  - apply fillPoints_mergeL; assumption.
  - apply roots_mergeL.
  - apply erase_mergeL.
Qed.

(** X2.  The loop of lines 54-57 is [finalizeDom]: when the store has the
    tree [f], no object twice, the loop over the references of the
    extension points leaves in the store, at the same roots, a tree that
    is [finalizeDom] of what [f] was. *)
Theorem retagPoints_finalize :
  forall (options : Options) (f : list lnode) (h : store),
    NoDup (refs f) ->
    holds h f ->
    exists f',
      holds (retagPoints options h (pointRefs options f)) f'
      /\ map root f' = map root f
      /\ map erase f' = finalizeDom options (map erase f).
Proof.
  intros options f h Hnd Hf.
  exists (map (finalizeL options) f).
  split; [|split].
  - apply retagPoints_finalizeL; assumption.
  - apply roots_finalizeL.
  - apply erase_finalizeL.
Qed.

Lemma fillPoints_merge_example :
  exists f',
    holds (fillPoints defaultOptions (map root [Demo.leafBlockL])
             Demo.heap (pointRefs defaultOptions Demo.rootL)) f'
    /\ map root f' = [0]
    /\ map erase f' = mergeDom defaultOptions [Demo.leafBlock] Demo.rootDom.
Proof.
  apply (fillPoints_merge defaultOptions [Demo.leafBlockL] Demo.rootL
           Demo.heap).
  - reflexivity.
  - repeat constructor; simpl; intuition discriminate.
  - repeat constructor.
  - repeat constructor.
  - intros r Hin Hin'. simpl in Hin, Hin'. intuition congruence.
Defined.

Lemma retagPoints_finalize_example :
  exists f',
    holds (retagPoints defaultOptions Demo.heap
             (pointRefs defaultOptions Demo.rootL)) f'
    /\ map root f' = [0]
    /\ map erase f' = finalizeDom defaultOptions Demo.rootDom.
Proof.
  apply (retagPoints_finalize defaultOptions Demo.rootL Demo.heap).
  - repeat constructor; simpl; intuition discriminate.
  - repeat constructor.
Defined.

(** ** One level of [resolveComponent] *)

Section Levels.
Variable L : Libs.
Variable options : Options.

Lemma resolveComponent_base (fuel : nat) (src : option string)
  (currPath : string) (aliases : obj value) (d : descriptor) :
  toDescriptor L src = inr d -> isBaseCase options d ->
  resolveComponent L options (S fuel) src currPath aliases
  = {| settled := [Resolve {| source := src; ancestorsPaths := [] |}];
       reads := [] |}.
Proof.
  intros Hd Hb. unfold isBaseCase in Hb. cbn [resolveComponent]. rewrite Hd.
  destruct (template d) as [t|]; [|reflexivity].
  destruct (get (attrs t) (EXTENDS_ATTR options)) as [v|]; [|reflexivity].
  rewrite Hb. reflexivity.
Qed.

Lemma resolveComponent_read (fuel : nat) (src : option string)
  (currPath : string) (aliases : obj value) (t : block) (d : descriptor)
  (v : value) (p text : string) :
  extendsBase L options src t d v ->
  baseAbsPath L v currPath aliases = inr p ->
  readFile L p = inr text ->
  resolveComponent L options (S fuel) src currPath aliases
  = let base := resolveComponent L options fuel (Some text)
                  (path_dirname L p) aliases in
    {| settled := thenMerge L options t d p base;
       reads := p :: reads base |}.
Proof.
  intros (Hd & Ht & Hv & Htr) Hp Hr. cbn [resolveComponent].
  rewrite Hd, Ht, Hv, Htr, Hp, Hr. reflexivity.
Qed.

Lemma resolveComponent_unreadable (fuel : nat) (src : option string)
  (currPath : string) (aliases : obj value) (t : block) (d : descriptor)
  (v : value) (p : string) (err : exn) :
  extendsBase L options src t d v ->
  baseAbsPath L v currPath aliases = inr p ->
  readFile L p = inl err ->
  resolveComponent L options (S fuel) src currPath aliases
  = let base := resolveComponent L options fuel None
                  (path_dirname L p) aliases in
    {| settled := Reject err :: thenMerge L options t d p base;
       reads := p :: reads base |}.
Proof.
  intros (Hd & Ht & Hv & Htr) Hp Hr. cbn [resolveComponent].
  rewrite Hd, Ht, Hv, Htr, Hp, Hr. reflexivity.
Qed.


Lemma thenMerge_rejected (t : block) (d : descriptor) (p : string)
  (base : run) (e : exn) :
  outcome base = Some (Reject e) ->
  thenMerge L options t d p base = [Reject e].
Proof. intros Ho. unfold thenMerge. rewrite Ho. reflexivity. Qed.



End Levels.

(** ** The claims *)

(** C4.  Base case identity: when the descriptor of a component source has
    no template, or a template whose attributes do not contain the
    [extends] key, the promise of [resolveComponent] is resolved, once,
    with the source unchanged and an empty [ancestorsPaths].  No file is
    read, and no recursive call is made: the result is the same for every
    amount of fuel, one level included. *)
Theorem base_case_identity :
  forall (L : Libs) (options : Options) (fuel : nat) (src : string)
         (currPath : string) (aliases : obj value) (d : descriptor),
    toDescriptor L (Some src) = inr d ->
    (template d = None
     \/ exists t, template d = Some t
                  /\ get (attrs t) (EXTENDS_ATTR options) = None) ->
    resolveComponent L options (S fuel) (Some src) currPath aliases
    = {| settled := [Resolve {| source := Some src; ancestorsPaths := [] |}];
         reads := [] |}.
Proof.
  intros L options fuel src currPath aliases d Hd Hbase.
  apply (resolveComponent_base L options fuel (Some src) currPath aliases d Hd).
  unfold isBaseCase.
  destruct Hbase as [Hnone|[t [Ht Hget]]].
  - rewrite Hnone. exact I.
  - rewrite Ht, Hget. reflexivity.
Qed.

Lemma base_case_identity_root :
  resolveComponent Demo.libs defaultOptions 1 (Some Demo.rootSrc)
    "/proj/src" []
  = {| settled := [Resolve {| source := Some Demo.rootSrc;
                              ancestorsPaths := [] |}];
       reads := [] |}.
Proof.
  apply (base_case_identity Demo.libs defaultOptions 0 Demo.rootSrc
           "/proj/src" [] Demo.rootDesc).
  - reflexivity.
  - right. exists {| type := "template"; attrs := [];
                     content := Demo.rootContent |}.
    split; reflexivity.
Defined.

Lemma eqb_ostring_true (a b : option string) :
  eqb_ostring a b = true <-> a = b.
Proof.
  destruct a as [x|], b as [y|]; simpl; split; intros H;
    try discriminate; try reflexivity.
  - apply String.eqb_eq in H. congruence.
  - injection H as ->. apply String.eqb_refl.
Qed.

Lemma getExtensions_none (options : Options) (d : dom) :
  (forall n, In n d -> nodeName n <> Some (EXTENSIONS_TAG options)) ->
  getExtensions options d
  = inl (TypeError "Cannot read property 'children' of undefined").
Proof.
  intros H. unfold getExtensions.
  replace (find _ d) with (@None node); [reflexivity|].
  symmetry. apply find_none_iff. intros y Hy.
  destruct (eqb_ostring (nodeName y) (Some (EXTENSIONS_TAG options))) eqn:E;
    [|reflexivity].
  apply eqb_ostring_true in E. elim (H y Hy E).
Qed.



Lemma getMergedCode_rejected (L : Libs) (options : Options) (fuel : nat)
  (src : option string) (currPath : string) (aliases : obj value) (e : exn) :
  outcome (resolveComponent L options fuel src currPath aliases)
  = Some (Reject e) ->
  outcome (getMergedCode L options fuel src currPath aliases)
  = Some (Reject e).
Proof.
  intros Ho. unfold getMergedCode, outcome at 1. cbn [settled].
  rewrite Ho. reflexivity.
Qed.

Lemma resolveComponent_undefined (L : Libs) (options : Options) (fuel : nat)
  (currPath : string) (aliases : obj value) :
  match toDescriptor L None with
  | inr d0 => isBaseCase options d0
  | inl _ => True
  end ->
  reads (resolveComponent L options fuel None currPath aliases) = [].
Proof.
  intros Hundef. destruct fuel as [|fuel]; [reflexivity|].
  destruct (toDescriptor L None) as [e|d0] eqn:E.
  - cbn [resolveComponent]. rewrite E. reflexivity.
  - rewrite (resolveComponent_base L options fuel None currPath aliases d0 E
               Hundef).
    reflexivity.
Qed.

(** C8.  An unreadable ancestor: when, following the chain of base
    components, a file cannot be read, the promises of [resolveComponent]
    and of [getMergedCode] are rejected with that read error as soon as the
    chain is followed that far; they are never resolved with a merged
    source.  The unreadable path is read once, after the paths before it,
    and, the section splitter finding no [extends] in an undefined source,
    nothing is read after it. *)
Theorem read_failure_rejects :
  forall (L : Libs) (options : Options) (aliases : obj value) (err : exn)
         (src : option string) (currPath : string) (ps : list string),
    readFails L options aliases err src currPath ps ->
    forall fuel, length ps <= fuel ->
      outcome (resolveComponent L options fuel src currPath aliases)
      = Some (Reject err)
      /\ outcome (getMergedCode L options fuel src currPath aliases)
         = Some (Reject err)
      /\ (exists qs p, ps = (qs ++ [p])%list /\ ~ In p qs
                       /\ readFile L p = inl err)
      /\ (match toDescriptor L None with
          | inr d0 => isBaseCase options d0
          | inl _ => True
          end ->
          reads (resolveComponent L options fuel src currPath aliases) = ps).
Proof.
  intros L options aliases err src currPath ps H.
  induction H as [src currPath t d v p Hx Hp Hr
                 |src currPath t d v p text ps Hx Hp Hr Hchain IH];
    intros fuel Hfuel; (destruct fuel as [|fuel]; [simpl in Hfuel; lia|]).
  - assert (Ho : outcome (resolveComponent L options (S fuel) src currPath
                            aliases) = Some (Reject err)).
    { rewrite (resolveComponent_unreadable L options fuel src currPath aliases
                 t d v p err Hx Hp Hr).
      reflexivity. }
    split; [exact Ho|]. split; [apply getMergedCode_rejected; exact Ho|].
    split.
    + exists [], p. split; [reflexivity|]. split; [intros []|exact Hr].
    + intros Hundef.
      rewrite (resolveComponent_unreadable L options fuel src currPath aliases
                 t d v p err Hx Hp Hr).
      cbv zeta. cbn [reads].
      rewrite (resolveComponent_undefined L options fuel (path_dirname L p)
                 aliases Hundef).
      reflexivity.
  - simpl in Hfuel.
    destruct (IH fuel ltac:(lia))
      as (Hb & _ & (qs & q & Hps & Hq & Hrq) & Hreads).
    assert (Ho : outcome (resolveComponent L options (S fuel) src currPath
                            aliases) = Some (Reject err)).
    { rewrite (resolveComponent_read L options fuel src currPath aliases
                 t d v p text Hx Hp Hr).
      cbv zeta. unfold outcome at 1. cbn [settled].
      rewrite (thenMerge_rejected L options t d p _ err Hb). reflexivity. }
    split; [exact Ho|]. split; [apply getMergedCode_rejected; exact Ho|].
    split.
    + exists (p :: qs), q. split; [rewrite Hps; reflexivity|].
      split; [|exact Hrq].
      intros [Heq|Hin]; [|exact (Hq Hin)].
      subst q. rewrite Hr in Hrq. discriminate.
    + intros Hundef.
      rewrite (resolveComponent_read L options fuel src currPath aliases
                 t d v p text Hx Hp Hr).
      cbv zeta. cbn [reads]. rewrite (Hreads Hundef). reflexivity.
Qed.

Lemma read_failure_rejects_heir :
  outcome (resolveComponent Demo.libs defaultOptions 2 (Some Demo.heirSrc)
             "/proj/src" []) = Some (Reject Demo.missing)
  /\ outcome (Demo.run1 2 Demo.heirSrc) = Some (Reject Demo.missing)
  /\ (exists qs p,
         ["/proj/src/Orphan.vue"; "/proj/src/Missing.vue"] = (qs ++ [p])%list
         /\ ~ In p qs /\ readFile Demo.libs p = inl Demo.missing)
  /\ (True ->
      reads (resolveComponent Demo.libs defaultOptions 2 (Some Demo.heirSrc)
               "/proj/src" [])
      = ["/proj/src/Orphan.vue"; "/proj/src/Missing.vue"]).
Proof.
  apply (read_failure_rejects Demo.libs defaultOptions [] Demo.missing
           (Some Demo.heirSrc) "/proj/src"
           ["/proj/src/Orphan.vue"; "/proj/src/Missing.vue"]).
  - apply (fails_above Demo.libs defaultOptions [] Demo.missing
             (Some Demo.heirSrc) "/proj/src" (Demo.templateOf Demo.heirDesc)
             Demo.heirDesc (VStr "Orphan.vue") "/proj/src/Orphan.vue"
             Demo.orphanSrc ["/proj/src/Missing.vue"]).
    + repeat split; reflexivity.
    + reflexivity.
    + reflexivity.
    + apply (fails_here Demo.libs defaultOptions [] Demo.missing
               (Some Demo.orphanSrc) "/proj/src"
               (Demo.templateOf Demo.orphanDesc) Demo.orphanDesc
               (VStr "Missing.vue") "/proj/src/Missing.vue").
      * repeat split; reflexivity.
      * reflexivity.
      * reflexivity.
  - simpl. lia.
Defined.

(** C10.  A derived component without a top-level [<extensions>]: when a
    component has an [extends] attribute and none of the top-level nodes of
    its template bears the extensions-container tag (a container further
    down does not count), the promise of [resolveComponent] is never
    resolved; whenever it settles it is rejected.  Above a base component
    that resolves to a source with a template, it is rejected with the
    [TypeError] of reading [children] of [undefined]: no merge with all
    points left open takes place. *)
Theorem missing_container_rejects :
  forall (L : Libs) (options : Options) (src : string) (currPath : string)
         (aliases : obj value) (t : block) (d : descriptor) (v : value),
    extendsBase L options (Some src) t d v ->
    (forall n, In n (parseDOM L (content t)) ->
               nodeName n <> Some (EXTENSIONS_TAG options)) ->
    (forall fuel s,
        outcome (resolveComponent L options fuel (Some src) currPath aliases)
        = Some s ->
        exists e, s = Reject e)
    /\ (forall fuel p text r bd bt,
           baseAbsPath L v currPath aliases = inr p ->
           readFile L p = inr text ->
           outcome (resolveComponent L options fuel (Some text)
                      (path_dirname L p) aliases) = Some (Resolve r) ->
           toDescriptor L (source r) = inr bd ->
           template bd = Some bt ->
           outcome (resolveComponent L options (S fuel) (Some src) currPath
                      aliases)
           = Some (Reject
                     (TypeError
                        "Cannot read property 'children' of undefined"))).
Proof.
  intros L options src currPath aliases t d v Hx Hno.
  pose proof (getExtensions_none options (parseDOM L (content t)) Hno) as He.
  split.
  - intros fuel s Ho. destruct fuel as [|fuel]; [discriminate|].
    destruct Hx as (Hd & Ht & Hv & Htr).
    cbn [resolveComponent] in Ho. rewrite Hd, Ht, Hv, Htr in Ho.
    destruct (baseAbsPath L v currPath aliases) as [e|p].
    { injection Ho as <-. eexists. reflexivity. }
    destruct (readFile L p) as [err|text].
    { injection Ho as <-. eexists. reflexivity. }
    unfold outcome at 1 in Ho. cbn [settled app] in Ho.
    unfold thenMerge, mergeWithBase in Ho. rewrite He in Ho.
    destruct (outcome _) as [[r0|e]|]; try discriminate.
    + destruct (toDescriptor L (source r0)) as [e|bd].
      { injection Ho as <-. eexists. reflexivity. }
      destruct (template bd) as [bt|]; injection Ho as <-;
        eexists; reflexivity.
    + injection Ho as <-. eexists. reflexivity.
  - intros fuel p text r bd bt Hp Hr Ho Hbd Hbt.
    rewrite (resolveComponent_read L options fuel (Some src) currPath aliases
               t d v p text Hx Hp Hr).
    cbv zeta. unfold outcome at 1. cbn [settled].
    unfold thenMerge, mergeWithBase. rewrite Ho, Hbd, Hbt, He. reflexivity.
Qed.

Lemma missing_container_rejects_nested :
  (forall fuel s,
      outcome (resolveComponent Demo.libs defaultOptions fuel
                 (Some Demo.nestedSrc) "/proj/src" []) = Some s ->
      exists e, s = Reject e)
  /\ outcome (resolveComponent Demo.libs defaultOptions 2
                (Some Demo.nestedSrc) "/proj/src" [])
     = Some (Reject Demo.noChildren).
Proof.
  assert (Hx : extendsBase Demo.libs defaultOptions (Some Demo.nestedSrc)
                 (Demo.templateOf Demo.nestedDesc) Demo.nestedDesc
                 (VStr "Root.vue")) by (repeat split; reflexivity).
  assert (Hno : forall n,
             In n (parseDOM Demo.libs
                     (content (Demo.templateOf Demo.nestedDesc))) ->
             nodeName n <> Some (EXTENSIONS_TAG defaultOptions)).
  { intros n [<-|[]]. discriminate. }
  destruct (missing_container_rejects Demo.libs defaultOptions Demo.nestedSrc
              "/proj/src" [] (Demo.templateOf Demo.nestedDesc)
              Demo.nestedDesc (VStr "Root.vue") Hx Hno) as [Hnever Hreject].
  split; [exact Hnever|].
  apply (Hreject 1 "/proj/src/Root.vue" Demo.rootSrc Demo.rootResolved
           Demo.rootDesc (Demo.templateOf Demo.rootDesc));
    reflexivity.
Defined.






(** A derived component without any extensions container: [Plain.vue]
    extends the root of the first example and has an empty template;
    [getMergedCode] never produces an output for it. *)
Lemma plain_component_rejected :
  extendsBase Demo.libs defaultOptions (Some Demo.plainSrc)
    (Demo.templateOf Demo.plainDesc) Demo.plainDesc (VStr "Root.vue")
  /\ parseDOM Demo.libs (content (Demo.templateOf Demo.plainDesc)) = []
  /\ outcome (Demo.run1 2 Demo.plainSrc) = Some (Reject Demo.noChildren)
  /\ forall fuel r, outcome (Demo.run1 fuel Demo.plainSrc) <> Some (Resolve r).
Proof.
  split; [repeat split; reflexivity|].
  split; [reflexivity|]. split; [reflexivity|].
  intros [|[|fuel]] r; vm_compute; discriminate.
Qed.




(** A chain through a component without any extensions container:
    [Tip.vue] fills [body] over [Plain.vue]; [getMergedCode] never produces
    an output for it. *)
Lemma chain_through_plain_component :
  extendsBase Demo.libs defaultOptions (Some Demo.tipSrc)
    (Demo.templateOf Demo.tipDesc) Demo.tipDesc (VStr "Plain.vue")
  /\ readFile Demo.libs "/proj/src/Plain.vue" = inr Demo.plainSrc
  /\ outcome (Demo.run1 3 Demo.tipSrc) = Some (Reject Demo.noChildren)
  /\ forall fuel r, outcome (Demo.run1 fuel Demo.tipSrc) <> Some (Resolve r).
Proof.
  split; [repeat split; reflexivity|].
  split; [reflexivity|]. split; [reflexivity|].
  intros [|[|[|fuel]]] r; vm_compute; discriminate.
Qed.




(** ** Path of the base component *)

Lemma findSegmentAlias_key (ks : list string) (seg : string)
  (rest : list string) :
  In seg ks -> findSegmentAlias ks (seg :: rest) = Some seg.
Proof.
  unfold findSegmentAlias. simpl. induction ks as [|k ks IH]; intros Hin.
  - destruct Hin.
  - simpl. destruct (seg =? k) eqn:E.
    + apply String.eqb_eq in E. subst k. reflexivity.
    + apply IH. destruct Hin as [->|Hin]; [|exact Hin].
      rewrite String.eqb_refl in E. discriminate.
Qed.

Lemma findPatternAlias_first (L : Libs) (rel : string)
  (ks1 : list string) (k : string) (ks2 : list string) :
  (forall k', In k' ks1 -> regexp_test L k' rel = inr false) ->
  regexp_test L k rel = inr true ->
  findPatternAlias L (ks1 ++ k :: ks2)%list rel = inr (Some k).
Proof.
  intros Hno Hk. induction ks1 as [|k1 ks1 IH]; simpl.
  - rewrite Hk. reflexivity.
  - rewrite (Hno k1 (or_introl eq_refl)). apply IH.
    intros k' Hin. apply Hno. right. exact Hin.
Qed.

(** C7, as the code has it.  Alias resolution of a reference whose first
    segment [seg] is an alias key, not the empty one, with a string for
    target.  Without the sentinel [__fromJest] the path is [path.join] of
    the target and of the remaining segments joined by [/].  With the
    sentinel, the keys are taken as patterns, in the order of the table:
    the first key that matches somewhere in the reference is the one
    used, and the path is the reference with the first match of that
    pattern replaced by the key's value. *)
Theorem alias_resolution :
  forall (L : Libs) (rel currPath : string) (aliases : obj value)
         (seg : string) (rest : list string) (target : string),
    splitPath rel = seg :: rest ->
    In seg (keys aliases) ->
    seg <> "" ->
    get aliases seg = Some (VStr target) ->
    (truthy (get aliases "__fromJest") = false ->
     baseAbsPath L (VStr rel) currPath aliases
     = inr (path_join L target (String.concat "/" rest)))
    /\ (truthy (get aliases "__fromJest") = true ->
        forall ks1 k ks2,
          keys aliases = (ks1 ++ k :: ks2)%list ->
          (forall k', In k' ks1 -> regexp_test L k' rel = inr false) ->
          regexp_test L k rel = inr true ->
          k <> "" ->
          baseAbsPath L (VStr rel) currPath aliases
          = inr (regexp_replace L rel k
                   (strOrUndefined (option_map toString (get aliases k))))).
Proof.
  intros L rel currPath aliases seg rest target Hsplit Hin Hne Hget. split.
  - intros Hplain. unfold baseAbsPath. rewrite Hplain, Hsplit.
    rewrite (findSegmentAlias_key (keys aliases) seg rest Hin).
    apply String.eqb_neq in Hne. rewrite Hne, Hget. reflexivity.
  - intros Hjest ks1 k ks2 Hkeys Hno Hk Hkne.
    unfold baseAbsPath. rewrite Hjest, Hkeys.
    rewrite (findPatternAlias_first L rel ks1 k ks2 Hno Hk).
    apply String.eqb_neq in Hkne. rewrite Hkne. reflexivity.
Qed.

Lemma alias_resolution_both_modes :
  baseAbsPath Demo.libs (VStr "lib/a.vue") "/proj/src" Demo.plainAliases
  = inr "/libs/a.vue"
  /\ baseAbsPath Demo.libs (VStr "lib/a.vue") "/proj/src" Demo.jestAliases
     = inr "lib//x.vue".
Proof.
  split.
  - apply (proj1 (alias_resolution Demo.libs "lib/a.vue" "/proj/src"
                    Demo.plainAliases "lib" ["a.vue"] "/libs" eq_refl
                    (or_intror (or_introl eq_refl))
                    ltac:(discriminate) eq_refl)).
    reflexivity.
  - apply (proj2 (alias_resolution Demo.libs "lib/a.vue" "/proj/src"
                    Demo.jestAliases "lib" ["a.vue"] "/libs" eq_refl
                    (or_intror (or_intror (or_introl eq_refl)))
                    ltac:(discriminate) eq_refl)
             eq_refl ["__fromJest"] "a" ["lib"] eq_refl).
    + intros k' [<-|[]]. reflexivity.
    + reflexivity.
    + discriminate.
Defined.

(** C7 as stated fails in the pattern mode: the first segment of
    [lib/a.vue] is the alias key [lib], whose target joined with the
    remaining segment is [/libs/a.vue], but the key [a] comes first in the
    table and matches inside the reference. *)
Lemma pattern_alias_not_joined :
  splitPath "lib/a.vue" = ["lib"; "a.vue"]
  /\ get Demo.jestAliases "lib" = Some (VStr "/libs")
  /\ path_join Demo.libs "/libs" (String.concat "/" ["a.vue"]) = "/libs/a.vue"
  /\ baseAbsPath Demo.libs (VStr "lib/a.vue") "/proj/src" Demo.jestAliases
     = inr "lib//x.vue"
  /\ baseAbsPath Demo.libs (VStr "lib/a.vue") "/proj/src" Demo.jestAliases
     <> inr (path_join Demo.libs "/libs" (String.concat "/" ["a.vue"])).
Proof.
  repeat split; try reflexivity. vm_compute. discriminate.
Qed.





(** * Further properties of the code *)

(** ** Runs of [resolveComponent] *)

Section Runs.
Variable L : Libs.
Variable options : Options.
Variable aliases : obj value.

Lemma mergeWithBase_ancestors (t : block) (d : descriptor) (p : string)
  (r0 r : resolved) :
  mergeWithBase L options t d p r0 = inr r ->
  ancestorsPaths r = (ancestorsPaths r0 ++ [p])%list.
Proof.
  unfold mergeWithBase.
  destruct (toDescriptor L (source r0)) as [e|bd]; [discriminate|].
  destruct (template bd) as [bt|]; [|discriminate].
  destruct (getExtensions options (parseDOM L (content t))) as [e|exts];
    [discriminate|].
  intros H. injection H as <-. reflexivity.
Qed.

(** A promise that is resolved was resolved as a base case, or above a
    base component that was read and whose promise was resolved. *)
Lemma resolved_inv (n : nat) (src : option string) (currPath : string)
  (r : resolved) :
  outcome (resolveComponent L options (S n) src currPath aliases)
  = Some (Resolve r) ->
  (resolveComponent L options (S n) src currPath aliases
   = {| settled := [Resolve {| source := src; ancestorsPaths := [] |}];
        reads := [] |}
   /\ r = {| source := src; ancestorsPaths := [] |})
  \/ exists t d v p text r0,
       extendsBase L options src t d v
       /\ baseAbsPath L v currPath aliases = inr p
       /\ readFile L p = inr text
       /\ outcome (resolveComponent L options n (Some text)
                     (path_dirname L p) aliases) = Some (Resolve r0)
       /\ mergeWithBase L options t d p r0 = inr r.
Proof.
  intros Ho.
  destruct (toDescriptor L src) as [e|d] eqn:Hd.
  { cbn [resolveComponent] in Ho. rewrite Hd in Ho. discriminate. }
  destruct (template d) as [t|] eqn:Ht.
  2:{ left. cbn [resolveComponent] in Ho |- *. rewrite Hd, Ht in Ho |- *.
      injection Ho as <-. split; reflexivity. }
  destruct (get (attrs t) (EXTENDS_ATTR options)) as [v|] eqn:Hv.
  2:{ left. cbn [resolveComponent] in Ho |- *.
      rewrite Hd, Ht, Hv in Ho |- *. injection Ho as <-. split; reflexivity. }
  destruct (truthy (Some v)) eqn:Htr.
  2:{ left. cbn [resolveComponent] in Ho |- *.
      rewrite Hd, Ht, Hv, Htr in Ho |- *. injection Ho as <-.
      split; reflexivity. }
  right.
  assert (Hx : extendsBase L options src t d v) by (repeat split; assumption).
  destruct (baseAbsPath L v currPath aliases) as [e|p] eqn:Hp.
  { cbn [resolveComponent] in Ho. rewrite Hd, Ht, Hv, Htr, Hp in Ho.
    discriminate. }
  destruct (readFile L p) as [err|text] eqn:Hr.
  { rewrite (resolveComponent_unreadable L options n src currPath aliases
               t d v p err Hx Hp Hr) in Ho. discriminate. }
  rewrite (resolveComponent_read L options n src currPath aliases t d v p
             text Hx Hp Hr) in Ho.
  cbv zeta in Ho. unfold outcome at 1 in Ho. cbn [settled] in Ho.
  unfold thenMerge in Ho.
  destruct (outcome (resolveComponent L options n (Some text)
                       (path_dirname L p) aliases)) as [[r0|e]|] eqn:Hb;
    try discriminate.
  destruct (mergeWithBase L options t d p r0) as [e|res] eqn:Hm;
    [discriminate|].
  injection Ho as <-.
  exists t, d, v, p, text, r0. repeat split; try assumption; apply Hx.
Qed.

(** Once a promise has settled, following the chain further changes
    nothing of its outcome. *)
Lemma outcome_later (n : nat) :
  forall src currPath s,
    outcome (resolveComponent L options n src currPath aliases) = Some s ->
    forall k,
      outcome (resolveComponent L options (n + k) src currPath aliases)
      = Some s.
Proof.
  induction n as [|n IH]; intros src currPath s Ho k; [discriminate|].
  change (S n + k) with (S (n + k)).
  cbn [resolveComponent] in Ho |- *.
  destruct (toDescriptor L src) as [e|d]; [exact Ho|].
  destruct (template d) as [t|]; [|exact Ho].
  destruct (get (attrs t) (EXTENDS_ATTR options)) as [v|]; [|exact Ho].
  destruct (truthy (Some v)); [|exact Ho].
  destruct (baseAbsPath L v currPath aliases) as [e|p]; [exact Ho|].
  destruct (readFile L p) as [err|text]; [exact Ho|].
  unfold outcome at 1 in Ho. unfold outcome at 1.
  cbn [settled app] in Ho |- *. unfold thenMerge in Ho |- *.
  destruct (outcome (resolveComponent L options n (Some text)
                       (path_dirname L p) aliases)) as [s0|] eqn:Hb;
    [|discriminate].
  rewrite (IH _ _ _ Hb k). exact Ho.
Qed.

(** A resolved promise: the whole run is the same with more fuel. *)
Lemma resolved_later (n : nat) :
  forall src currPath r,
    outcome (resolveComponent L options n src currPath aliases)
    = Some (Resolve r) ->
    forall k,
      resolveComponent L options (n + k) src currPath aliases
      = resolveComponent L options n src currPath aliases.
Proof.
  induction n as [|n IH]; intros src currPath r Ho k; [discriminate|].
  change (S n + k) with (S (n + k)).
  destruct (resolved_inv n src currPath r Ho)
    as [[Hrun _]|(t & d & v & p & text & r0 & Hx & Hp & Hr & Hb & Hm)].
  - rewrite Hrun.
    cbn [resolveComponent] in Hrun |- *.
    destruct (toDescriptor L src) as [e|d]; [exact Hrun|].
    destruct (template d) as [t|]; [|exact Hrun].
    destruct (get (attrs t) (EXTENDS_ATTR options)) as [v|]; [|exact Hrun].
    destruct (truthy (Some v)); [|exact Hrun].
    destruct (baseAbsPath L v currPath aliases) as [e|p]; [discriminate|].
    destruct (readFile L p); discriminate.
  - rewrite (resolveComponent_read L options (n + k) src currPath aliases
               t d v p text Hx Hp Hr).
    rewrite (resolveComponent_read L options n src currPath aliases
               t d v p text Hx Hp Hr).
    cbv zeta. rewrite (IH _ _ _ Hb k). reflexivity.
Qed.

Lemma ancestors_reads (n : nat) :
  forall src currPath r,
    outcome (resolveComponent L options n src currPath aliases)
    = Some (Resolve r) ->
    ancestorsPaths r
    = rev (reads (resolveComponent L options n src currPath aliases)).
Proof.
  induction n as [|n IH]; intros src currPath r Ho; [discriminate|].
  destruct (resolved_inv n src currPath r Ho)
    as [[Hrun ->]|(t & d & v & p & text & r0 & Hx & Hp & Hr & Hb & Hm)].
  - rewrite Hrun. reflexivity.
  - rewrite (resolveComponent_read L options n src currPath aliases
               t d v p text Hx Hp Hr).
    cbv zeta. cbn [reads rev].
    rewrite (mergeWithBase_ancestors t d p r0 r Hm), (IH _ _ _ Hb).
    reflexivity.
Qed.

(** A path read in a resolved run is read for a base component whose own
    run is the rest of the reads. *)
Lemma reads_rest (n : nat) :
  forall src currPath r q,
    outcome (resolveComponent L options n src currPath aliases)
    = Some (Resolve r) ->
    In q (reads (resolveComponent L options n src currPath aliases)) ->
    exists m text pre r',
      m < n
      /\ readFile L q = inr text
      /\ outcome (resolveComponent L options m (Some text)
                    (path_dirname L q) aliases) = Some (Resolve r')
      /\ reads (resolveComponent L options n src currPath aliases)
         = (pre ++ q
              :: reads (resolveComponent L options m (Some text)
                          (path_dirname L q) aliases))%list.
Proof.
  induction n as [|n IH]; intros src currPath r q Ho Hin; [discriminate|].
  destruct (resolved_inv n src currPath r Ho)
    as [[Hrun _]|(t & d & v & p & text & r0 & Hx & Hp & Hr & Hb & Hm)].
  - rewrite Hrun in Hin. destruct Hin.
  - rewrite (resolveComponent_read L options n src currPath aliases
               t d v p text Hx Hp Hr) in Hin |- *.
    cbv zeta in Hin |- *. cbn [reads] in Hin |- *.
    destruct Hin as [<-|Hin].
    + exists n, text, [], r0. repeat split; try assumption. lia.
    + destruct (IH _ _ r0 q Hb Hin)
        as (m & text' & pre & r' & Hm' & Hr' & Ho' & Hreads).
      exists m, text', (p :: pre), r'. repeat split; try assumption; [lia|].
      rewrite Hreads. reflexivity.
Qed.

Lemma reads_NoDup (n : nat) :
  forall src currPath r,
    outcome (resolveComponent L options n src currPath aliases)
    = Some (Resolve r) ->
    NoDup (reads (resolveComponent L options n src currPath aliases)).
Proof.
  induction n as [|n IH]; intros src currPath r Ho; [discriminate|].
  destruct (resolved_inv n src currPath r Ho)
    as [[Hrun _]|(t & d & v & p & text & r0 & Hx & Hp & Hr & Hb & Hm)].
  - rewrite Hrun. constructor.
  - rewrite (resolveComponent_read L options n src currPath aliases
               t d v p text Hx Hp Hr).
    cbv zeta. cbn [reads]. constructor; [|exact (IH _ _ r0 Hb)].
    intros Hin.
    destruct (reads_rest n _ _ r0 p Hb Hin)
      as (m & text' & pre & r' & Hlt & Hr' & Ho' & Hreads).
    rewrite Hr in Hr'. injection Hr' as <-.
    pose proof (resolved_later m _ _ r' Ho' (n - m)) as Hsame.
    replace (m + (n - m)) with n in Hsame by lia.
    rewrite Hsame in Hreads.
    apply (f_equal (@length string)) in Hreads.
    rewrite length_app in Hreads. cbn [length] in Hreads. lia.
Qed.

End Runs.

(** ** The trees *)

Lemma get_delete_other (V : Type) (o : obj V) (k k' : string) :
  k' <> k -> get (delete o k) k' = get o k'.
Proof.
  intros Hne. induction o as [|[k0 v] o IH]; simpl; [reflexivity|].
  destruct (k0 =? k) eqn:E.
  - rewrite IH. apply String.eqb_eq in E. subst k0.
    apply not_eq_sym in Hne. apply String.eqb_neq in Hne. rewrite Hne.
    reflexivity.
  - simpl. rewrite IH. reflexivity.
Qed.

Lemma find_first (A : Type) (f : A -> bool) (l1 l2 : list A) (x : A) :
  (forall y, In y l1 -> f y = false) -> f x = true ->
  find f (l1 ++ x :: l2)%list = Some x.
Proof.
  intros Hno Hx. induction l1 as [|y l1 IH]; simpl.
  - rewrite Hx. reflexivity.
  - rewrite (Hno y (or_introl eq_refl)). apply IH.
    intros z Hz. apply Hno. right. exact Hz.
Qed.

(** X3.  The last pass of [getMergedCode] (lines 54-57) is idempotent:
    retagging the extension points of a tree that went through the pass
    changes nothing, whatever the tags and attributes configured. *)
Theorem finalizeDom_idempotent :
  forall (options : Options) (d : dom),
    finalizeDom options (finalizeDom options d) = finalizeDom options d.
Proof.
  intros options.
  apply (dom_ind
           (fun n => finalizeNode options (finalizeNode options n)
                     = finalizeNode options n)
           (fun d => finalizeDom options (finalizeDom options d)
                     = finalizeDom options d)).
  - reflexivity.
  - reflexivity.
  - intros ty nm at_ ch IH. cbn [finalizeNode].
    fold (finalizeDom options ch).
    destruct (isExtPoint options ty nm) eqn:E; cbn [finalizeNode].
    + fold (finalizeDom options (finalizeDom options ch)). rewrite IH.
      destruct (isExtPoint options ty "template"); [|reflexivity].
      rewrite delete_delete. reflexivity.
    + fold (finalizeDom options (finalizeDom options ch)).
      rewrite E, IH. reflexivity.
  - reflexivity.
  - intros n d IHn IHd. unfold finalizeDom in *. cbn [map].
    rewrite IHn, IHd. reflexivity.
Qed.

(** X4.  Merging without extension blocks (lines 126-138): with an empty
    extensions container the base tree is left as it is, extension points
    included. *)
Theorem mergeDom_no_extensions :
  forall (options : Options) (baseDom : dom),
    mergeDom options [] baseDom = baseDom.
Proof.
  intros options.
  apply (dom_ind
           (fun n => mergeNode options [] n = n)
           (fun d => mergeDom options [] d = d)).
  - reflexivity.
  - reflexivity.
  - intros ty nm at_ ch IH. cbn [mergeNode findExtendBlock find].
    fold (mergeDom options [] ch). rewrite IH.
    destruct (isExtPoint options ty nm); reflexivity.
  - reflexivity.
  - intros n d IHn IHd. unfold mergeDom in *. cbn [map].
    rewrite IHn, IHd. reflexivity.
Qed.

(** X5.  What becomes of the attributes of an extension point (lines
    135-136 and 55-56): filled or finalized, the element loses its
    point-name attribute and keeps every other attribute with its value. *)
Theorem point_attributes_kept :
  forall (options : Options) (exts : dom) (at_ : obj string) (D : dom)
         (k : string),
    (get (nodeAttribs (finalizeNode options (extPoint options at_ D)))
         (EXT_POINT_NAME_ATTR options) = None
     /\ (k <> EXT_POINT_NAME_ATTR options ->
         get (nodeAttribs (finalizeNode options (extPoint options at_ D))) k
         = get at_ k))
    /\ (findExtendBlock options exts at_ <> None ->
        get (nodeAttribs (mergeNode options exts (extPoint options at_ D)))
            (EXT_POINT_NAME_ATTR options) = None
        /\ (k <> EXT_POINT_NAME_ATTR options ->
            get (nodeAttribs (mergeNode options exts (extPoint options at_ D)))
                k
            = get at_ k)).
Proof.
  intros options exts at_ D k. split.
  - rewrite finalizeNode_point. unfold plainTemplate. cbn [nodeAttribs].
    split; [apply get_delete|apply get_delete_other].
  - intros Hsome.
    destruct (findExtendBlock options exts at_) as [blk|] eqn:E;
      [|elim Hsome; reflexivity].
    rewrite (mergeNode_filled options exts at_ D blk E).
    unfold plainTemplate. cbn [nodeAttribs].
    split; [apply get_delete|apply get_delete_other].
Qed.

Lemma point_attributes_kept_body :
  get (nodeAttribs
         (mergeNode defaultOptions [Demo.leafBlock]
            (extPoint defaultOptions [("name", "body"); ("class", "wide")]
               Demo.bodyDefault))) "name" = None
  /\ get (nodeAttribs
            (mergeNode defaultOptions [Demo.leafBlock]
               (extPoint defaultOptions [("name", "body"); ("class", "wide")]
                  Demo.bodyDefault))) "class" = Some "wide".
Proof.
  destruct (proj2 (point_attributes_kept defaultOptions [Demo.leafBlock]
                     [("name", "body"); ("class", "wide")] Demo.bodyDefault
                     "class")) as [Hname Hclass].
  - discriminate.
  - split; [exact Hname|]. apply Hclass. discriminate.
Defined.

(** X6.  Which extensions container is read (lines 122-123): the first
    top-level node that bears the container tag.  Its children bearing
    the extension tag are the blocks, in order; nodes after it, other
    containers included, are not looked at. *)
Theorem first_container_only :
  forall (options : Options) (pre : dom) (container : node) (post : dom),
    (forall n, In n pre -> nodeName n <> Some (EXTENSIONS_TAG options)) ->
    nodeName container = Some (EXTENSIONS_TAG options) ->
    getExtensions options (pre ++ container :: post)%list
    = inr (filter (fun n => eqb_ostring (nodeName n)
                                        (Some (EXTENSION_TAG options)))
                  (nodeChildren container))
    /\ forall post',
         getExtensions options (pre ++ container :: post')%list
         = getExtensions options (pre ++ container :: post)%list.
Proof.
  intros options pre container post Hpre Hc.
  assert (Hfind : forall rest,
             find (fun n => eqb_ostring (nodeName n)
                                        (Some (EXTENSIONS_TAG options)))
                  (pre ++ container :: rest)%list = Some container).
  { intros rest. apply find_first.
    - intros y Hy.
      destruct (eqb_ostring (nodeName y) (Some (EXTENSIONS_TAG options)))
        eqn:E; [|reflexivity].
      apply eqb_ostring_true in E. elim (Hpre y Hy E).
    - apply eqb_ostring_true. exact Hc. }
  unfold getExtensions. split.
  - rewrite Hfind. reflexivity.
  - intros post'. rewrite !Hfind. reflexivity.
Qed.

Lemma first_container_only_twice :
  getExtensions defaultOptions
    ([Text " "] ++ Element Tag "extensions" [] [Text " "; Demo.leafBlock]
       :: [Element Tag "extensions" [] [Demo.innerBlock]])%list
  = inr [Demo.leafBlock].
Proof.
  apply (first_container_only defaultOptions [Text " "]
           (Element Tag "extensions" [] [Text " "; Demo.leafBlock])
           [Element Tag "extensions" [] [Demo.innerBlock]]).
  - intros n [<-|[]]. discriminate.
  - reflexivity.
Defined.

Lemma findExtendBlock_first (options : Options) (before : dom) (blk : node)
  (after : dom) (at_ : obj string) :
  (forall b, In b before ->
             get (nodeAttribs b) (EXT_POINT_REF_ATTR options)
             <> get at_ (EXT_POINT_NAME_ATTR options)) ->
  get (nodeAttribs blk) (EXT_POINT_REF_ATTR options)
  = get at_ (EXT_POINT_NAME_ATTR options) ->
  findExtendBlock options (before ++ blk :: after)%list at_ = Some blk.
Proof.
  intros Hbefore Hblk. unfold findExtendBlock. apply find_first.
  - intros b Hb.
    destruct (eqb_ostring (get (nodeAttribs b) (EXT_POINT_REF_ATTR options))
                          (get at_ (EXT_POINT_NAME_ATTR options))) eqn:E;
      [|reflexivity].
    apply eqb_ostring_true in E. elim (Hbefore b Hb E).
  - apply eqb_ostring_true. exact Hblk.
Qed.

Lemma delete_absent (V : Type) (o : obj V) (k : string) :
  get o k = None -> delete o k = o.
Proof.
  induction o as [|[k0 v] o IH]; [reflexivity|].
  simpl. destruct (k0 =? k); [discriminate|].
  intros H. rewrite (IH H). reflexivity.
Qed.

(** X7.  Two blocks for one point (line 128): among the extension blocks
    whose point attribute equals the name of an extension point, the first
    in the container fills it; the later ones are ignored. *)
Theorem first_block_wins :
  forall (options : Options) (before : dom) (blk : node) (after : dom)
         (at_ : obj string) (D : dom),
    (forall b, In b before ->
               get (nodeAttribs b) (EXT_POINT_REF_ATTR options)
               <> get at_ (EXT_POINT_NAME_ATTR options)) ->
    get (nodeAttribs blk) (EXT_POINT_REF_ATTR options)
    = get at_ (EXT_POINT_NAME_ATTR options) ->
    mergeNode options (before ++ blk :: after)%list (extPoint options at_ D)
    = plainTemplate options at_ (nodeChildren blk).
Proof.
  intros options before blk after at_ D Hbefore Hblk.
  apply mergeNode_filled. apply findExtendBlock_first; assumption.
Qed.

Lemma first_block_wins_twice :
  mergeNode defaultOptions
    ([Demo.innerBlock] ++ Demo.leafBlock
       :: [Element Tag "extension" [("point", "body")] Demo.outerFill])%list
    (extPoint defaultOptions [("name", "body")] Demo.bodyDefault)
  = plainTemplate defaultOptions [("name", "body")] Demo.leafFill.
Proof.
  apply (first_block_wins defaultOptions [Demo.innerBlock] Demo.leafBlock
           [Element Tag "extension" [("point", "body")] Demo.outerFill]
           [("name", "body")] Demo.bodyDefault).
  - intros b [<-|[]]. discriminate.
  - reflexivity.
Defined.

(** X8.  A point without a name (line 128): [undefined === undefined], so
    an extension point that has no point-name attribute is filled by the
    first extension block that has no point attribute, and by no block
    that has one. *)
Theorem unnamed_point_filled :
  forall (options : Options) (before : dom) (blk : node) (after : dom)
         (at_ : obj string) (D : dom),
    get at_ (EXT_POINT_NAME_ATTR options) = None ->
    (forall b, In b before ->
               get (nodeAttribs b) (EXT_POINT_REF_ATTR options) <> None) ->
    get (nodeAttribs blk) (EXT_POINT_REF_ATTR options) = None ->
    mergeNode options (before ++ blk :: after)%list (extPoint options at_ D)
    = Element Tag "template" at_ (nodeChildren blk).
Proof.
  intros options before blk after at_ D Hname Hbefore Hblk.
  rewrite (mergeNode_filled options (before ++ blk :: after)%list at_ D blk).
  - unfold plainTemplate. rewrite (delete_absent _ at_ _ Hname). reflexivity.
  - apply findExtendBlock_first.
    + intros b Hb. rewrite Hname. exact (Hbefore b Hb).
    + rewrite Hname. exact Hblk.
Qed.

Lemma unnamed_point_filled_example :
  mergeNode defaultOptions
    ([Demo.leafBlock] ++ Element Tag "extension" [] Demo.outerFill :: [])%list
    (extPoint defaultOptions [("class", "wide")] Demo.bodyDefault)
  = Element Tag "template" [("class", "wide")] Demo.outerFill.
Proof.
  apply (unnamed_point_filled defaultOptions [Demo.leafBlock]
           (Element Tag "extension" [] Demo.outerFill) []
           [("class", "wide")] Demo.bodyDefault).
  - reflexivity.
  - intros b [<-|[]]. discriminate.
  - reflexivity.
Defined.

(** X16.  What the search returns (lines 186-188): only elements of type
    [tag] whose name is the tag asked for, never an element of type
    [script] or [style], a text or a comment; and it returns every such
    element that is at the top level. *)
Theorem findDomElementsByTagName_sound :
  forall (d : dom) (tag : string),
    (forall n, In n (findDomElementsByTagName d tag) ->
               exists at_ ch, n = Element Tag tag at_ ch)
    /\ (forall at_ ch, In (Element Tag tag at_ ch) d ->
                       In (Element Tag tag at_ ch)
                          (findDomElementsByTagName d tag)).
Proof.
  intros d tag. split.
  - revert d.
    apply (dom_ind
             (fun m => forall n, In n (findAllFrom tag m) ->
                                 exists at_ ch, n = Element Tag tag at_ ch)
             (fun d => forall n, In n (findDomElementsByTagName d tag) ->
                                 exists at_ ch, n = Element Tag tag at_ ch)).
    + intros s n [].
    + intros s n [].
    + intros ty nm at_ ch IH n Hin. cbn [findAllFrom] in Hin.
      apply in_app_or in Hin. destruct Hin as [Hin|Hin]; [|exact (IH n Hin)].
      destruct (isTagNamed tag ty nm) eqn:E; [|destruct Hin].
      destruct Hin as [<-|[]]. unfold isTagNamed in E.
      apply andb_true_iff in E. destruct E as [Hty Hnm].
      apply String.eqb_eq in Hnm. subst nm.
      destruct ty; try discriminate. exists at_, ch. reflexivity.
    + intros n [].
    + intros m d IHm IHd n Hin.
      unfold findDomElementsByTagName in Hin. cbn [flat_map] in Hin.
      apply in_app_or in Hin.
      destruct Hin as [Hin|Hin]; [exact (IHm n Hin)|exact (IHd n Hin)].
  - intros at_ ch Hin. unfold findDomElementsByTagName.
    apply in_flat_map. exists (Element Tag tag at_ ch).
    split; [exact Hin|]. cbn [findAllFrom]. unfold isTagNamed.
    cbn [isTagType andb]. rewrite String.eqb_refl. left. reflexivity.
Qed.

(** ** Strings and paths *)

Lemma strip_pad_line (r : string) :
  stripCommentLines ("//" ++ nl ++ r) = stripCommentLines r.
Proof. reflexivity. Qed.

Lemma prefix_pad_line (s : string) :
  prefix ("//" ++ nl) s = true -> exists r, s = "//" ++ nl ++ r.
Proof.
  unfold nl. cbn [append ascii_of_nat ascii_of_pos]. intros H.
  destruct s as [|a [|b [|c r]]]; cbn [prefix] in H; try discriminate.
  - destruct (ascii_dec "/" a); discriminate.
  - destruct (ascii_dec "/" a); [|discriminate].
    destruct (ascii_dec "/" b); discriminate.
  - destruct (ascii_dec "/" a) as [<-|]; [|discriminate].
    destruct (ascii_dec "/" b) as [<-|]; [|discriminate].
    destruct (ascii_dec _ c) as [<-|]; [|discriminate].
    exists r. reflexivity.
Qed.

Lemma strip_no_pad (s : string) :
  prefix ("//" ++ nl) s = false -> stripCommentLines s = s.
Proof.
  intros H. destruct s as [|a [|b [|c r]]].
  - reflexivity.
  - destruct a as [[] [] [] [] [] [] [] []]; reflexivity.
  - destruct a as [[] [] [] [] [] [] [] []]; try reflexivity.
    destruct b as [[] [] [] [] [] [] [] []]; reflexivity.
  - destruct a as [[] [] [] [] [] [] [] []]; try reflexivity.
    destruct b as [[] [] [] [] [] [] [] []]; try reflexivity.
    destruct c as [[] [] [] [] [] [] [] []]; try reflexivity.
    assert (Ht : prefix ("//" ++ nl)
                   (String "/" (String "/" (String "010" r))) = true)
      by (apply prefix_correct; destruct r; reflexivity).
    rewrite Ht in H. discriminate.
Qed.

Lemma strip_result (n : nat) :
  forall s, String.length s <= n ->
            prefix ("//" ++ nl) (stripCommentLines s) = false.
Proof.
  induction n as [|n IH]; intros s Hlen.
  - destruct s; [reflexivity|simpl in Hlen; lia].
  - destruct (prefix ("//" ++ nl) s) eqn:E.
    + destruct (prefix_pad_line s E) as [r ->].
      rewrite strip_pad_line. apply IH. simpl in Hlen. lia.
    + rewrite (strip_no_pad s E). exact E.
Qed.

(** X9.  Padding and stripping (line 48): the pass of [getMergedCode] over
    the script removes exactly the comment lines the section splitter put
    in front of it, however many, when the script itself does not start
    with such a line. *)
Theorem strip_padding :
  forall (n : nat) (s : string),
    prefix ("//" ++ nl) s = false ->
    stripCommentLines (padLines n ++ s) = s.
Proof.
  intros n s H. unfold padLines. induction n as [|n IH].
  - apply strip_no_pad. exact H.
  - cbn [repeat].
    replace (String.concat "" (("//" ++ nl) :: repeat ("//" ++ nl) n) ++ s)
      with ("//" ++ nl ++ (String.concat "" (repeat ("//" ++ nl) n) ++ s)).
    + rewrite strip_pad_line. exact IH.
    + destruct n; reflexivity.
Qed.

Lemma strip_padding_three :
  stripCommentLines (padLines 3 ++ "export default {}") = "export default {}".
Proof. apply (strip_padding 3 "export default {}"). reflexivity. Defined.

(** X10.  What the stripped script looks like (line 48): it never starts
    with an empty comment line, so a script that did start with one of its
    own loses it too; stripping twice is stripping once. *)
Theorem strip_complete :
  forall (s : string),
    prefix ("//" ++ nl) (stripCommentLines s) = false
    /\ stripCommentLines (stripCommentLines s) = stripCommentLines s.
Proof.
  intros s.
  assert (H : prefix ("//" ++ nl) (stripCommentLines s) = false)
    by (apply (strip_result (String.length s)); lia).
  split; [exact H|apply strip_no_pad; exact H].
Qed.

Lemma splitPath_nonempty (s : string) : splitPath s <> [].
Proof.
  destruct s as [|c r]; [discriminate|]. simpl.
  destruct (isSep c); [discriminate|].
  destruct (splitPath r); discriminate.
Qed.

(** X11.  Splitting and joining a reference (lines 80 and 98): the
    segments of a reference joined again by [/] are the reference with its
    backslashes turned into slashes; there is always a first segment. *)
Theorem split_join :
  forall (s : string),
    String.concat "/" (splitPath s) = slashes s
    /\ exists seg rest, splitPath s = seg :: rest.
Proof.
  intros s. split.
  - induction s as [|c r IH]; [reflexivity|].
    cbn [splitPath slashes].
    destruct (isSep c).
    + pose proof (splitPath_nonempty r) as Hne.
      destruct (splitPath r) as [|h t] eqn:E; [elim Hne; reflexivity|].
      change (String.concat "/" ("" :: h :: t))
        with ("" ++ "/" ++ String.concat "/" (h :: t)).
      rewrite IH. reflexivity.
    + pose proof (splitPath_nonempty r) as Hne.
      destruct (splitPath r) as [|h t] eqn:E; [elim Hne; reflexivity|].
      rewrite <- IH. destruct t; reflexivity.
  - pose proof (splitPath_nonempty s) as Hne.
    destruct (splitPath s) as [|seg rest]; [elim Hne; reflexivity|].
    exists seg, rest. reflexivity.
Qed.

Lemma findSegmentAlias_first (ks : list string) (parts : list string)
  (k : string) :
  findSegmentAlias ks parts = Some k -> hd_error parts = Some k /\ In k ks.
Proof.
  unfold findSegmentAlias. intros H. apply find_some in H.
  destruct H as [Hin H]. apply eqb_ostring_true in H. split; assumption.
Qed.

(** X12.  A reference no alias applies to (lines 90-103): without the
    sentinel, when the first segment of the reference is not an alias key,
    or is the empty segment of a reference that starts with a separator
    (an empty key is falsy at line 93), the path is [path.join] of the
    directory of the current component and the reference as written. *)
Theorem no_alias_context_path :
  forall (L : Libs) (rel currPath : string) (aliases : obj value)
         (seg : string) (rest : list string),
    truthy (get aliases "__fromJest") = false ->
    splitPath rel = seg :: rest ->
    seg = "" \/ ~ In seg (keys aliases) ->
    baseAbsPath L (VStr rel) currPath aliases
    = inr (path_join L currPath rel).
Proof.
  intros L rel currPath aliases seg rest Hplain Hsplit Hseg.
  unfold baseAbsPath. rewrite Hplain, Hsplit.
  destruct (findSegmentAlias (keys aliases) (seg :: rest)) as [k|] eqn:E;
    [|reflexivity].
  apply findSegmentAlias_first in E. destruct E as [Hk Hin].
  injection Hk as <-.
  destruct Hseg as [->|Hnot]; [reflexivity|elim (Hnot Hin)].
Qed.

Lemma no_alias_context_path_examples :
  baseAbsPath Demo.libs (VStr "Root.vue") "/proj/src" Demo.plainAliases
  = inr "/proj/src/Root.vue"
  /\ baseAbsPath Demo.libs (VStr "/lib/a.vue") "/proj/src"
       (("", VStr "/root") :: Demo.plainAliases)
     = inr (path_join Demo.libs "/proj/src" "/lib/a.vue").
Proof.
  split.
  - apply (no_alias_context_path Demo.libs "Root.vue" "/proj/src"
             Demo.plainAliases "Root.vue" []); try reflexivity.
    right. intros [H|[H|[]]]; discriminate.
  - apply (no_alias_context_path Demo.libs "/lib/a.vue" "/proj/src"
             (("", VStr "/root") :: Demo.plainAliases) "" ["lib"; "a.vue"]);
      try reflexivity.
    left. reflexivity.
Defined.

(** X13.  An alias whose target is not a string (line 99): without the
    sentinel, when the first segment of the reference is a non-empty alias
    key whose value is not a string, [path.join] throws, the promise of
    [resolveComponent] is rejected with that [TypeError], and no file is
    read. *)
Theorem alias_target_not_string :
  forall (L : Libs) (options : Options) (fuel : nat) (src : option string)
         (currPath : string) (aliases : obj value) (t : block)
         (d : descriptor) (rel seg : string) (rest : list string) (b : bool),
    extendsBase L options src t d (VStr rel) ->
    truthy (get aliases "__fromJest") = false ->
    splitPath rel = seg :: rest ->
    seg <> "" ->
    In seg (keys aliases) ->
    get aliases seg = Some (VBool b) ->
    resolveComponent L options (S fuel) src currPath aliases
    = {| settled :=
           [Reject (TypeError "The path argument must be of type string")];
         reads := [] |}.
Proof.
  intros L options fuel src currPath aliases t d rel seg rest b
         (Hd & Ht & Hv & Htr) Hplain Hsplit Hne Hin Hget.
  cbn [resolveComponent]. rewrite Hd, Ht, Hv, Htr.
  unfold baseAbsPath. rewrite Hplain, Hsplit.
  rewrite (findSegmentAlias_key (keys aliases) seg rest Hin).
  apply String.eqb_neq in Hne. rewrite Hne, Hget. reflexivity.
Qed.

Lemma alias_target_not_string_example :
  resolveComponent Demo.libs defaultOptions 1 (Some Demo.midSrc) "/proj/src"
    [("Root.vue", VBool true)]
  = {| settled :=
         [Reject (TypeError "The path argument must be of type string")];
       reads := [] |}.
Proof.
  apply (alias_target_not_string Demo.libs defaultOptions 0
           (Some Demo.midSrc) "/proj/src" [("Root.vue", VBool true)]
           (Demo.templateOf Demo.midDesc) Demo.midDesc "Root.vue" "Root.vue"
           [] true); try reflexivity.
  - repeat split; reflexivity.
  - discriminate.
  - left. reflexivity.
Defined.

(** ** What the runs keep *)

(** X14.  The ancestors are the files read (lines 105 and 114): when the
    promise of [resolveComponent] is resolved, [ancestorsPaths] lists
    exactly the paths given to [fs.readFile], the last one read first. *)
Theorem ancestors_are_reads :
  forall (L : Libs) (options : Options) (fuel : nat) (src : option string)
         (currPath : string) (aliases : obj value) (r : resolved),
    outcome (resolveComponent L options fuel src currPath aliases)
    = Some (Resolve r) ->
    ancestorsPaths r
    = rev (reads (resolveComponent L options fuel src currPath aliases)).
Proof.
  intros L options fuel src currPath aliases r Ho.
  exact (ancestors_reads L options aliases fuel src currPath r Ho).
Qed.

Lemma ancestors_are_reads_leaf :
  ancestorsPaths Demo.leafResolved
  = rev (reads (resolveComponent Demo.libs defaultOptions 3
                  (Some Demo.leafSrc) "/proj/src" [])).
Proof.
  apply (ancestors_are_reads Demo.libs defaultOptions 3 (Some Demo.leafSrc)
           "/proj/src" [] Demo.leafResolved).
  reflexivity.
Defined.

(** X15.  No ancestor twice (lines 105-114): when the promise of
    [resolveComponent] is resolved, no path was read twice and no ancestor
    is listed twice; a component that comes back to a file already read
    on its chain never has its promise resolved. *)
Theorem ancestors_distinct :
  forall (L : Libs) (options : Options) (fuel : nat) (src : option string)
         (currPath : string) (aliases : obj value) (r : resolved),
    outcome (resolveComponent L options fuel src currPath aliases)
    = Some (Resolve r) ->
    NoDup (reads (resolveComponent L options fuel src currPath aliases))
    /\ NoDup (ancestorsPaths r).
Proof.
  intros L options fuel src currPath aliases r Ho.
  pose proof (reads_NoDup L options aliases fuel src currPath r Ho) as Hnd.
  split; [exact Hnd|].
  rewrite (ancestors_reads L options aliases fuel src currPath r Ho).
  apply NoDup_rev. exact Hnd.
Qed.

Lemma ancestors_distinct_leaf :
  NoDup (reads (resolveComponent Demo.libs defaultOptions 3
                  (Some Demo.leafSrc) "/proj/src" []))
  /\ NoDup (ancestorsPaths Demo.leafResolved).
Proof.
  apply (ancestors_distinct Demo.libs defaultOptions 3 (Some Demo.leafSrc)
           "/proj/src" [] Demo.leafResolved).
  reflexivity.
Defined.

(** X17.  [getMergedCode] over [resolveComponent] (lines 41-69): the last
    pass reads no file and touches no ancestor.  The promise of
    [getMergedCode] is rejected exactly when that of [resolveComponent]
    is, with the same error; when it is resolved, so was the other, and
    with the same [ancestorsPaths]; the files read are the same. *)
Theorem getMergedCode_over_resolveComponent :
  forall (L : Libs) (options : Options) (fuel : nat) (src : option string)
         (currPath : string) (aliases : obj value),
    (forall e,
        outcome (getMergedCode L options fuel src currPath aliases)
        = Some (Reject e)
        <-> outcome (resolveComponent L options fuel src currPath aliases)
            = Some (Reject e))
    /\ (forall res,
           outcome (getMergedCode L options fuel src currPath aliases)
           = Some (Resolve res) ->
           exists r,
             outcome (resolveComponent L options fuel src currPath aliases)
             = Some (Resolve r)
             /\ ancestorsPaths res = ancestorsPaths r)
    /\ reads (getMergedCode L options fuel src currPath aliases)
       = reads (resolveComponent L options fuel src currPath aliases).
Proof.
  intros L options fuel src currPath aliases.
  assert (Hfin : forall r s, hd_error (finalize L options r) = Some s ->
                             exists res, s = Resolve res
                                         /\ ancestorsPaths res
                                            = ancestorsPaths r).
  { intros r s. unfold finalize.
    destruct (toDescriptor L (source r)) as [e|parsed]; [discriminate|].
    destruct (template (stripScript parsed)) as [ft|].
    - destruct (truthy (get (attrs ft) (EXTENDABLE_ATTR options)));
        intros H; injection H as <-; eexists; split; reflexivity.
    - intros H; injection H as <-. eexists. split; reflexivity. }
  split; [|split].
  - intros e. unfold getMergedCode, outcome at 1. cbn [settled].
    destruct (outcome (resolveComponent L options fuel src currPath aliases))
      as [[r|e']|].
    + split; [|discriminate]. intros H.
      destruct (Hfin r _ H) as (res & Hres & _). discriminate.
    + split; intros H; exact H.
    + split; discriminate.
  - intros res. unfold getMergedCode, outcome at 1. cbn [settled].
    destruct (outcome (resolveComponent L options fuel src currPath aliases))
      as [[r|e']|]; try discriminate.
    intros H. destruct (Hfin r _ H) as (res' & Hres & Hanc).
    injection Hres as <-. exists r. split; [reflexivity|exact Hanc].
  - reflexivity.
Qed.

(** X18.  A rejection goes up (lines 151-153): when the promise of the
    base component is rejected, for whatever reason, the promise of the
    component that extends it is rejected with the same error, and so is
    that of [getMergedCode]. *)
Theorem rejection_goes_up :
  forall (L : Libs) (options : Options) (fuel : nat) (src : option string)
         (currPath : string) (aliases : obj value) (t : block)
         (d : descriptor) (v : value) (p text : string) (e : exn),
    extendsBase L options src t d v ->
    baseAbsPath L v currPath aliases = inr p ->
    readFile L p = inr text ->
    outcome (resolveComponent L options fuel (Some text) (path_dirname L p)
               aliases) = Some (Reject e) ->
    outcome (resolveComponent L options (S fuel) src currPath aliases)
    = Some (Reject e)
    /\ outcome (getMergedCode L options (S fuel) src currPath aliases)
       = Some (Reject e).
Proof.
  intros L options fuel src currPath aliases t d v p text e Hx Hp Hr Hb.
  assert (Ho : outcome (resolveComponent L options (S fuel) src currPath
                          aliases) = Some (Reject e)).
  { rewrite (resolveComponent_read L options fuel src currPath aliases
               t d v p text Hx Hp Hr).
    cbv zeta. unfold outcome at 1. cbn [settled].
    rewrite (thenMerge_rejected L options t d p _ e Hb). reflexivity. }
  split; [exact Ho|apply getMergedCode_rejected; exact Ho].
Qed.

Lemma rejection_goes_up_tip :
  outcome (resolveComponent Demo.libs defaultOptions 3 (Some Demo.tipSrc)
             "/proj/src" []) = Some (Reject Demo.noChildren)
  /\ outcome (Demo.run1 3 Demo.tipSrc) = Some (Reject Demo.noChildren).
Proof.
  apply (rejection_goes_up Demo.libs defaultOptions 2 (Some Demo.tipSrc)
           "/proj/src" [] (Demo.templateOf Demo.tipDesc) Demo.tipDesc
           (VStr "Plain.vue") "/proj/src/Plain.vue" Demo.plainSrc
           Demo.noChildren); try reflexivity.
  repeat split; reflexivity.
Defined.

(** ** The loader *)

Lemma loader_calls (M : Type) (L : Libs)
  (validateOptions : Options -> option exn) (userOptions : obj string)
  (fuel : nat) (text : string) (m : M) (context : string)
  (aliases : obj value) :
  validateOptions (mergeOptions userOptions) = None ->
  loader M L validateOptions userOptions fuel text m context aliases
  = inr match outcome (getMergedCode L (mergeOptions userOptions) fuel
                         (Some text) context aliases) with
        | Some (Resolve result) =>
            (map AddDependency (ancestorsPaths result)
             ++ [CallbackOk (source result) m])%list
        | Some (Reject error) => [CallbackError error]
        | None => []
        end.
Proof.
  intros Hv. unfold loader. rewrite Hv.
  destruct (outcome _) as [[[merged ancestors]|e]|]; reflexivity.
Qed.

(** X19.  What the loader registers (lines 27-35): when the options pass
    validation and the promise of [getMergedCode] is resolved, the loader
    calls [addDependency] for every file that was read, once each, the
    last one read first, and then the callback, once, with the merged
    source and the map it was given. *)
Theorem loader_registers_reads :
  forall (M : Type) (L : Libs) (validateOptions : Options -> option exn)
         (userOptions : obj string) (fuel : nat) (text : string) (m : M)
         (context : string) (aliases : obj value) (res : resolved),
    validateOptions (mergeOptions userOptions) = None ->
    outcome (getMergedCode L (mergeOptions userOptions) fuel (Some text)
               context aliases) = Some (Resolve res) ->
    loader M L validateOptions userOptions fuel text m context aliases
    = inr (map AddDependency
             (rev (reads (resolveComponent L (mergeOptions userOptions) fuel
                            (Some text) context aliases)))
           ++ [CallbackOk (source res) m])%list
    /\ NoDup (reads (resolveComponent L (mergeOptions userOptions) fuel
                       (Some text) context aliases)).
Proof.
  intros M L validateOptions userOptions fuel text m context aliases res
         Hv Ho.
  rewrite (loader_calls M L validateOptions userOptions fuel text m context
             aliases Hv), Ho.
  unfold getMergedCode, outcome at 1 in Ho. cbn [settled] in Ho.
  destruct (outcome (resolveComponent L (mergeOptions userOptions) fuel
                       (Some text) context aliases))
    as [[r|e]|] eqn:Hr; try discriminate.
  assert (Hanc : ancestorsPaths res = ancestorsPaths r).
  { unfold finalize in Ho.
    destruct (toDescriptor L (source r)) as [e|parsed];
      [discriminate|].
    destruct (template (stripScript parsed)) as [ft|].
    - destruct (truthy (get (attrs ft)
                          (EXTENDABLE_ATTR (mergeOptions userOptions))));
        injection Ho as <-; reflexivity.
    - injection Ho as <-. reflexivity. }
  rewrite Hanc.
  rewrite (ancestors_reads L (mergeOptions userOptions) aliases fuel
             (Some text) context r Hr).
  split; [reflexivity|].
  exact (reads_NoDup L (mergeOptions userOptions) aliases fuel (Some text)
           context r Hr).
Qed.


Lemma loader_registers_reads_leaf :
  loader unit Demo.libs (fun _ => None) [] 3 Demo.leafSrc tt "/proj/src" []
  = inr [AddDependency "/proj/src/Root.vue";
         AddDependency "/proj/src/Mid.vue";
         CallbackOk
           (Some (finalSource
                    (Demo.outerHTML
                       (Demo.reparsed (Demo.reparsed Demo.filledDom)))
                    (descriptorToHTML defaultOptions Demo.leafDesc)))
           tt]
  /\ NoDup ["/proj/src/Mid.vue"; "/proj/src/Root.vue"].
Proof.
  exact (loader_registers_reads unit Demo.libs (fun _ => None) [] 3
           Demo.leafSrc tt "/proj/src" []
           {| source :=
                Some (finalSource
                        (Demo.outerHTML
                           (Demo.reparsed (Demo.reparsed Demo.filledDom)))
                        (descriptorToHTML defaultOptions Demo.leafDesc));
              ancestorsPaths :=
                ["/proj/src/Root.vue"; "/proj/src/Mid.vue"] |}
           eq_refl eq_refl).
Defined.


(** ** The blocks carried over *)



(** X22.  Extension blocks are not carried over (lines 195-198): custom
    blocks whose type is the extension tag add nothing to what
    [descriptorToHTML] returns, wherever they stand among the custom
    blocks. *)
Theorem extension_blocks_dropped :
  forall (options : Options) (d : descriptor) (before extra after : list block),
    customBlocks d = (before ++ extra ++ after)%list ->
    (forall b, In b extra -> type b = EXTENSION_TAG options) ->
    descriptorToHTML options d
    = descriptorToHTML options
        {| template := template d; script := script d; styles := styles d;
           customBlocks := (before ++ after)%list |}.
Proof.
  intros options d before extra after Hc Hextra.
  unfold descriptorToHTML. cbn [customBlocks script styles].
  rewrite Hc, !filter_app.
  assert (Hnil : filter (fun cb => negb (type cb =? EXTENSION_TAG options))
                        extra = []).
  { clear Hc. induction extra as [|b extra IH]; [reflexivity|].
    cbn [filter]. rewrite (Hextra b (or_introl eq_refl)), String.eqb_refl.
    cbn [negb]. apply IH. intros b' Hb'. apply Hextra. right. exact Hb'. }
  rewrite Hnil. reflexivity.
Qed.

Lemma extension_blocks_dropped_example :
  descriptorToHTML defaultOptions
    {| template := None; script := None; styles := [];
       customBlocks := [ {| type := "docs"; attrs := []; content := "a" |};
                         {| type := "extension"; attrs := []; content := "b" |};
                         {| type := "i18n"; attrs := []; content := "c" |} ] |}
  = descriptorToHTML defaultOptions
      {| template := None; script := None; styles := [];
         customBlocks := ([ {| type := "docs"; attrs := []; content := "a" |} ]
                          ++ [ {| type := "i18n"; attrs := [];
                                  content := "c" |} ])%list |}.
Proof.
  apply (extension_blocks_dropped defaultOptions
           {| template := None; script := None; styles := [];
              customBlocks :=
                [ {| type := "docs"; attrs := []; content := "a" |};
                  {| type := "extension"; attrs := []; content := "b" |};
                  {| type := "i18n"; attrs := []; content := "c" |} ] |}
           [ {| type := "docs"; attrs := []; content := "a" |} ]
           [ {| type := "extension"; attrs := []; content := "b" |} ]
           [ {| type := "i18n"; attrs := []; content := "c" |} ]).
  - reflexivity.
  - intros b [<-|[]]. reflexivity.
Defined.
